(** * bugbounty-leaderboard: the page script, embedded and verified

    The repository holds one browser script in two copies:
    [static/js/script.js] (78 lines) and a second, shorter copy (54 lines).
    The script drives a modal dialog, a light/dark theme switch and a click
    delegate that opens the modal from "action cards".

    The embedding is shallow.  The page is a tree of elements, an element
    reference is the path of child indices leading to it, and every piece of
    JavaScript becomes a computation in a small state-and-exception monad
    over the browser state the script can observe or change.  A statement
    that throws leaves the mutations made before it in place, as in the
    browser.

    What the model keeps of the browser:
    - the tree below [document.body], with the id, classes, other
      attributes, text and inline [display] of every element; an
      assignment to [innerText] replaces everything inside the element by
      the text, so whatever was nested in it leaves the page;
    - [localStorage], the answer of the dark-mode media query, the style
      sheets appended to the head;
    - which handlers the top level of the script has installed, so that a
      page load and the dispatch of a click or key event can be run;
    - two ghost fields that the script cannot read: the log of calls of
      [openModal], and the exceptions that the event loop reported. *)

From stdpp Require Import gmap strings list fin_maps.

Open Scope string_scope.

(** ** The document *)

(** What the script can see of one element.  [elemId] is the [id]
    attribute, [classList] the tokens of the [class] attribute,
    [attributes] every other attribute ([data-*] among them), [innerText]
    the element's own text and [display] its inline [style.display]. *)
Record Element := mkElement {
  tagName : string;
  elemId : option string;
  classList : list string;
  attributes : gmap string string;
  innerText : string;
  display : string
}.

(** An element with its children, in document order. *)
#[warnings="-register-all"]
Inductive Node := El (e : Element) (kids : list Node).

(** A reference to an element: the child indices from [document.body] down.
    The script adds no element to the body and moves none, so an element
    keeps its reference for as long as it is on the page; it leaves the
    page, with everything inside it, when a text is written into one of
    its ancestors. *)
Abbreviation Path := (list nat).

Definition rootElement (n : Node) : Element :=
  match n with El e _ => e end.

Definition children (n : Node) : list Node :=
  match n with El _ kids => kids end.

Fixpoint nodeAt (n : Node) (p : Path) : option Node :=
  match p with
  | [] => Some n
  | i :: p' =>
      match children n !! i with
      | Some c => nodeAt c p'
      | None => None
      end
  end.

Definition elemAt (n : Node) (p : Path) : option Element :=
  rootElement <$> nodeAt n p.

(** In-place mutation of the element at [p]; a dangling reference changes
    nothing. *)
Fixpoint updateAt (f : Element -> Element) (p : Path) (n : Node) : Node :=
  match p with
  | [] => El (f (rootElement n)) (children n)
  | i :: p' => El (rootElement n) (alter (updateAt f p') i (children n))
  end.

(** The same on whole subtrees: [f] rebuilds the node at [p], children
    included. *)
Fixpoint replaceAt (f : Node -> Node) (p : Path) (n : Node) : Node :=
  match p with
  | [] => f n
  | i :: p' => El (rootElement n) (alter (replaceAt f p') i (children n))
  end.

(** [q] lies strictly inside the element at [p]. *)
Fixpoint inside (q p : Path) : bool :=
  match p, q with
  | [], [] => false
  | [], _ :: _ => true
  | _ :: _, [] => false
  | i :: p', j :: q' => bool_decide (i = j) && inside q' p'
  end.

(** *** Selectors *)

Section FirstMatch.
Context {A : Type} (search : A -> option Path).

(** First hit among siblings, numbered from [i]. *)
Fixpoint firstIn (ks : list A) (i : nat) : option Path :=
  match ks with
  | [] => None
  | k :: ks' =>
      match search k with
      | Some p => Some (i :: p)
      | None => firstIn ks' (S i)
      end
  end.
End FirstMatch.

(** First element in document order (the node itself, then its
    descendants, depth first) that satisfies [sel]. *)
Fixpoint findFirst (sel : Element -> bool) (n : Node) : option Path :=
  match n with
  | El e kids =>
      if sel e then Some [] else firstIn (findFirst sel) kids 0
  end.

(** First proper descendant that satisfies [sel]: [Element.querySelector]
    never returns the element it is called on. *)
Definition findFirstBelow (sel : Element -> bool) (n : Node) : option Path :=
  firstIn (findFirst sel) (children n) 0.

(** [Element.closest]: the nearest element on the way from [p] up to the
    root, [p] itself included, that satisfies [sel]. *)
Fixpoint closestAt (sel : Element -> bool) (n : Node) (p : Path) : option Path :=
  match p with
  | [] => if sel (rootElement n) then Some [] else None
  | i :: p' =>
      match children n !! i with
      | None => None
      | Some c =>
          match closestAt sel c p' with
          | Some q => Some (i :: q)
          | None => if sel (rootElement n) then Some [] else None
          end
      end
  end.

(** [findFirstBelow] from the element at [base], answered as a reference
    from the root. *)
Definition selectBelow (sel : Element -> bool) (base : Path) (n : Node) : option Path :=
  m ← nodeAt n base;
  rel ← findFirstBelow sel m;
  Some (base ++ rel)%list.

Definition hasId (id : string) (e : Element) : bool :=
  bool_decide (elemId e = Some id).

Definition hasClass (c : string) (e : Element) : bool :=
  bool_decide (c ∈ classList e).

Definition hasTag (t : string) (e : Element) : bool :=
  bool_decide (tagName e = t).

(** *** Field setters *)

Definition withInnerText (v : string) (e : Element) : Element :=
  mkElement (tagName e) (elemId e) (classList e) (attributes e) v (display e).

(** What the [innerText] setter leaves of an element: the element with the
    new text and no child element.  (The browser stores the text as text
    nodes, one per line; the model keeps the string.) *)
Definition withText (v : string) (n : Node) : Node :=
  El (withInnerText v (rootElement n)) [].

Definition withDisplay (v : string) (e : Element) : Element :=
  mkElement (tagName e) (elemId e) (classList e) (attributes e) (innerText e) v.

Definition withClassList (v : list string) (e : Element) : Element :=
  mkElement (tagName e) (elemId e) v (attributes e) (innerText e) (display e).

Definition withAttribute (k v : string) (e : Element) : Element :=
  mkElement (tagName e) (elemId e) (classList e) (<[k := v]> (attributes e))
            (innerText e) (display e).

(** ** The browser state and the monad of script code *)

(** A value handed to [openModal]: a string, or [undefined] when a card
    lacks the attribute that [dataset] is asked for. *)
Inductive JSValue :=
| JSUndefined
| JSString (s : string).

(** String conversion, as done by a template literal and by the
    [innerText] setter. *)
Definition toString (v : JSValue) : string :=
  match v with
  | JSUndefined => "undefined"
  | JSString s => s
  end.

Definition OpenArgs : Type := JSValue * JSValue * JSValue * JSValue.

(** Which handlers the script has installed so far, and on which element. *)
Record Listeners := mkListeners {
  closeOnclickOn : option Path;
  windowOnclickSet : bool;
  keydownListenerSet : bool;
  themeToggleClickOn : option Path;
  bodyClickSet : bool
}.

Definition noListeners : Listeners :=
  mkListeners None false false None false.

Record World := mkWorld {
  body : Node;                          (* document.body and all below it *)
  headStyles : list string;             (* style sheets appended to document.head *)
  localStorage : gmap string string;
  prefersDark : bool;                   (* matchMedia('(prefers-color-scheme: dark)').matches *)
  listeners : Listeners;
  openModalCalls : list OpenArgs;       (* ghost: arguments of every call of openModal, oldest first *)
  consoleErrors : list string           (* uncaught exceptions reported by the event loop *)
}.

Definition withBody (f : Node -> Node) (w : World) : World :=
  mkWorld (f (body w)) (headStyles w) (localStorage w) (prefersDark w)
          (listeners w) (openModalCalls w) (consoleErrors w).

Definition withHeadStyles (f : list string -> list string) (w : World) : World :=
  mkWorld (body w) (f (headStyles w)) (localStorage w) (prefersDark w)
          (listeners w) (openModalCalls w) (consoleErrors w).

Definition withLocalStorage (f : gmap string string -> gmap string string)
    (w : World) : World :=
  mkWorld (body w) (headStyles w) (f (localStorage w)) (prefersDark w)
          (listeners w) (openModalCalls w) (consoleErrors w).

Definition withListeners (f : Listeners -> Listeners) (w : World) : World :=
  mkWorld (body w) (headStyles w) (localStorage w) (prefersDark w)
          (f (listeners w)) (openModalCalls w) (consoleErrors w).

Definition withOpenModalCalls (f : list OpenArgs -> list OpenArgs)
    (w : World) : World :=
  mkWorld (body w) (headStyles w) (localStorage w) (prefersDark w)
          (listeners w) (f (openModalCalls w)) (consoleErrors w).

Definition withConsoleErrors (f : list string -> list string) (w : World) : World :=
  mkWorld (body w) (headStyles w) (localStorage w) (prefersDark w)
          (listeners w) (openModalCalls w) (f (consoleErrors w)).

(** How a piece of script ends: normally with a value, or with an uncaught
    exception. *)
Inductive Outcome (A : Type) :=
| Normal (a : A)
| Thrown (err : string).
Arguments Normal {A} a.
Arguments Thrown {A} err.

Definition JS (A : Type) : Type := World -> World * Outcome A.

#[export] Instance JS_ret : MRet JS := fun A a w => (w, Normal a).

#[export] Instance JS_bind : MBind JS := fun A B k m w =>
  match m w with
  | (w', Normal a) => k a w'
  | (w', Thrown err) => (w', Thrown err)
  end.

Definition throw {A} (err : string) : JS A := fun w => (w, Thrown err).

Definition gets {A} (f : World -> A) : JS A := fun w => (w, Normal (f w)).

Definition modify (f : World -> World) : JS unit := fun w => (f w, Normal tt).

Definition exec {A} (m : JS A) (w : World) : World := fst (m w).

Definition outcome {A} (m : JS A) (w : World) : Outcome A := snd (m w).

(** The error of a property access on [null]. *)
Definition TypeError : string := "TypeError".

(** Runs [m] on a reference, or throws when the reference is [null]. *)
Definition deref {A} (r : option Path) (m : Path -> JS A) : JS A :=
  match r with
  | Some p => m p
  | None => throw TypeError
  end.

(** *** The browser interfaces the script calls *)

Definition getElementById (id : string) : JS (option Path) :=
  gets (fun w => findFirst (hasId id) (body w)).

(** [document.querySelector] with a one-step selector. *)
Definition querySelector (sel : Element -> bool) : JS (option Path) :=
  gets (fun w => findFirst sel (body w)).

(** [base.querySelector]: the search is below [base], the answer is again a
    reference from the body. *)
Definition querySelectorIn (base : Path) (sel : Element -> bool) : JS (option Path) :=
  gets (fun w => selectBelow sel base (body w)).

Definition closest (target : Path) (sel : Element -> bool) : JS (option Path) :=
  gets (fun w => closestAt sel (body w) target).

(** [el.innerText = v]: all children of the element are replaced by the
    text, so the elements that were inside it are no longer in the
    document. *)
Definition setInnerText (r : option Path) (v : string) : JS unit :=
  deref r (fun p => modify (withBody (replaceAt (withText v) p))).

Definition setDisplay (r : option Path) (v : string) : JS unit :=
  deref r (fun p => modify (withBody (updateAt (withDisplay v) p))).

Definition setClassName (r : option Path) (v : list string) : JS unit :=
  deref r (fun p => modify (withBody (updateAt (withClassList v) p))).

Definition setAttribute (p : Path) (k v : string) : JS unit :=
  modify (withBody (updateAt (withAttribute k v) p)).

Definition getAttribute (p : Path) (k : string) : JS (option string) :=
  gets (fun w => e ← elemAt (body w) p; attributes e !! k).

(** [el.dataset.key] reads the attribute [data-key], and is [undefined]
    when the element has no such attribute. *)
Definition datasetAt (w : World) (p : Path) (key : string) : JSValue :=
  match e ← elemAt (body w) p; attributes e !! ("data-" ++ key) with
  | Some s => JSString s
  | None => JSUndefined
  end.

Definition dataset (p : Path) (key : string) : JS JSValue :=
  gets (fun w => datasetAt w p key).

Definition getItem (k : string) : JS (option string) :=
  gets (fun w => localStorage w !! k).

Definition setItem (k v : string) : JS unit :=
  modify (withLocalStorage (insert k v)).

Definition matchMediaPrefersDark : JS bool := gets prefersDark.

(** [document.body] *)
Definition documentBody : Path := [].

(** [a || b] on a string-or-null [a]: [null] and the empty string are
    falsy. *)
Definition jsOr (a : option string) (b : string) : string :=
  match a with
  | Some s => if bool_decide (s = "") then b else s
  | None => b
  end.

(** *** Installing handlers *)

Definition setCloseOnclick (r : option Path) : JS unit :=
  deref r (fun p => modify (withListeners (fun l =>
    mkListeners (Some p) (windowOnclickSet l) (keydownListenerSet l)
                (themeToggleClickOn l) (bodyClickSet l)))).

Definition setWindowOnclick : JS unit :=
  modify (withListeners (fun l =>
    mkListeners (closeOnclickOn l) true (keydownListenerSet l)
                (themeToggleClickOn l) (bodyClickSet l))).

Definition addKeydownListener : JS unit :=
  modify (withListeners (fun l =>
    mkListeners (closeOnclickOn l) (windowOnclickSet l) true
                (themeToggleClickOn l) (bodyClickSet l))).

Definition addThemeToggleClick (p : Path) : JS unit :=
  modify (withListeners (fun l =>
    mkListeners (closeOnclickOn l) (windowOnclickSet l) (keydownListenerSet l)
                (Some p) (bodyClickSet l))).

Definition addBodyClick : JS unit :=
  modify (withListeners (fun l =>
    mkListeners (closeOnclickOn l) (windowOnclickSet l) (keydownListenerSet l)
                (themeToggleClickOn l) true)).

(** [document.head.appendChild(style)] for a fresh style element. *)
Definition appendStyle (textContent : string) : JS unit :=
  modify (withHeadStyles (fun l => l ++ [textContent])%list).

(** ** static/js/script.js *)

Module ScriptJs.

(* lines 1-8 *)
Definition openModal (summary name score time : JSValue) : JS unit :=
  modify (withOpenModalCalls (fun l => l ++ [(summary, name, score, time)])%list) ;;
  el ← getElementById "modal-title";
  setInnerText el ("Action by " ++ toString name) ;;
  el ← getElementById "modal-details";
  setInnerText el (toString summary) ;;
  el ← getElementById "modal-user";
  setInnerText el (toString name) ;;
  el ← getElementById "modal-score";
  setInnerText el ("+" ++ toString score ++ " pts") ;;
  el ← getElementById "modal-time";
  setInnerText el ("Time: " ++ toString time) ;;
  el ← getElementById "modal";
  setDisplay el "block".

(* lines 10-12: the function assigned to the close control's onclick *)
Definition closeOnclick : JS unit :=
  el ← getElementById "modal";
  setDisplay el "none".

(* lines 14-19 *)
Definition windowOnclick (target : Path) : JS unit :=
  modal ← getElementById "modal";
  if bool_decide (Some target = modal)
  then setDisplay modal "none"
  else mret tt.

(* lines 22-26 *)
Definition keydownListener (key : string) : JS unit :=
  if bool_decide (key = "Escape")
  then el ← getElementById "modal"; setDisplay el "none"
  else mret tt.

(* line 34: savedTheme || (systemPrefersDark ? 'dark' : 'light') *)
Definition currentTheme (savedTheme : option string) (systemPrefersDark : bool)
    : string :=
  jsOr savedTheme (if systemPrefersDark then "dark" else "light").

(* lines 40 and 49: theme === 'dark' ? 'fa-solid fa-sun' : 'fa-solid fa-moon' *)
Definition iconClassName (theme : string) : list string :=
  if bool_decide (theme = "dark")
  then ["fa-solid"; "fa-sun"]
  else ["fa-solid"; "fa-moon"].

(* line 44: currentTheme === 'dark' ? 'light' : 'dark', on the result of
   getAttribute, which is null when the attribute is missing *)
Definition newTheme (currentTheme : option string) : string :=
  if bool_decide (currentTheme = Some "dark") then "light" else "dark".

(* lines 42-53: the click listener, closed over [themeToggle] *)
Definition themeToggleClick (themeToggle : Path) : JS unit :=
  currentTheme ← getAttribute documentBody "data-theme";
  setAttribute documentBody "data-theme" (newTheme currentTheme) ;;
  icon ← querySelectorIn themeToggle (hasTag "i");
  setClassName icon (iconClassName (newTheme currentTheme)) ;;
  setItem "theme" (newTheme currentTheme).

(* lines 29-54 *)
Definition themeSetup : JS unit :=
  themeToggle ← getElementById "themeToggle";
  match themeToggle with
  | Some themeToggle =>
      savedTheme ← getItem "theme";
      systemPrefersDark ← matchMediaPrefersDark;
      setAttribute documentBody "data-theme"
                   (currentTheme savedTheme systemPrefersDark) ;;
      icon ← querySelectorIn themeToggle (hasTag "i");
      setClassName icon (iconClassName (currentTheme savedTheme systemPrefersDark)) ;;
      addThemeToggleClick themeToggle
  | None => mret tt
  end.

(* lines 57-70: the click listener on document.body *)
Definition bodyClick (target : Path) : JS unit :=
  cardElement ← closest target (hasClass "action-card-modern");
  match cardElement with
  | Some cardElement =>
      summary ← dataset cardElement "summary";
      userName ← dataset cardElement "user";
      score ← dataset cardElement "score";
      time ← dataset cardElement "time";
      openModal summary userName score time
  | None => mret tt
  end.

(* lines 74-77 *)
Definition style : string :=
"
    .action-card-modern { cursor: pointer; }
    .action-card-modern:hover { opacity: 0.9; }
".

(** The top level of the file, run once when the page loads. *)
Definition main : JS unit :=
  close ← querySelector (hasClass "close");
  setCloseOnclick close ;;
  setWindowOnclick ;;
  addKeydownListener ;;
  themeSetup ;;
  addBodyClick ;;
  appendStyle style.

End ScriptJs.

(** ** The second copy (54 lines) *)

Module Part000.

(* lines 1-8 *)
Definition openModal (summary name score time : JSValue) : JS unit :=
  modify (withOpenModalCalls (fun l => l ++ [(summary, name, score, time)])%list) ;;
  el ← getElementById "modal-title";
  setInnerText el ("Action by " ++ toString name) ;;
  el ← getElementById "modal-details";
  setInnerText el (toString summary) ;;
  el ← getElementById "modal-user";
  setInnerText el (toString name) ;;
  el ← getElementById "modal-score";
  setInnerText el ("+" ++ toString score ++ " pts") ;;
  el ← getElementById "modal-time";
  setInnerText el ("Time: " ++ toString time) ;;
  el ← getElementById "modal";
  setDisplay el "block".

(* lines 10-12 *)
Definition closeOnclick : JS unit :=
  el ← getElementById "modal";
  setDisplay el "none".

(* lines 14-19 *)
Definition windowOnclick (target : Path) : JS unit :=
  modal ← getElementById "modal";
  if bool_decide (Some target = modal)
  then setDisplay modal "none"
  else mret tt.

(* lines 22-26 *)
Definition keydownListener (key : string) : JS unit :=
  if bool_decide (key = "Escape")
  then el ← getElementById "modal"; setDisplay el "none"
  else mret tt.

(* line 34 *)
Definition currentTheme (savedTheme : option string) (systemPrefersDark : bool)
    : string :=
  jsOr savedTheme (if systemPrefersDark then "dark" else "light").

(* lines 40 and 49 *)
Definition iconClassName (theme : string) : list string :=
  if bool_decide (theme = "dark")
  then ["fa-solid"; "fa-sun"]
  else ["fa-solid"; "fa-moon"].

(* line 44 *)
Definition newTheme (currentTheme : option string) : string :=
  if bool_decide (currentTheme = Some "dark") then "light" else "dark".

(* lines 42-53 *)
Definition themeToggleClick (themeToggle : Path) : JS unit :=
  currentTheme ← getAttribute documentBody "data-theme";
  setAttribute documentBody "data-theme" (newTheme currentTheme) ;;
  icon ← querySelectorIn themeToggle (hasTag "i");
  setClassName icon (iconClassName (newTheme currentTheme)) ;;
  setItem "theme" (newTheme currentTheme).

(* lines 29-54 *)
Definition themeSetup : JS unit :=
  themeToggle ← getElementById "themeToggle";
  match themeToggle with
  | Some themeToggle =>
      savedTheme ← getItem "theme";
      systemPrefersDark ← matchMediaPrefersDark;
      setAttribute documentBody "data-theme"
                   (currentTheme savedTheme systemPrefersDark) ;;
      icon ← querySelectorIn themeToggle (hasTag "i");
      setClassName icon (iconClassName (currentTheme savedTheme systemPrefersDark)) ;;
      addThemeToggleClick themeToggle
  | None => mret tt
  end.

(** The top level of the file: it ends with the theme block. *)
Definition main : JS unit :=
  close ← querySelector (hasClass "close");
  setCloseOnclick close ;;
  setWindowOnclick ;;
  addKeydownListener ;;
  themeSetup.

End Part000.

(** ** The event loop *)

(** The handler bodies of one copy of the script. *)
Record Handlers := mkHandlers {
  onCloseClick : JS unit;
  onWindowClick : Path -> JS unit;
  onKeydown : string -> JS unit;
  onThemeToggleClick : Path -> JS unit;
  onBodyClick : Path -> JS unit
}.

Definition scriptJsHandlers : Handlers :=
  mkHandlers ScriptJs.closeOnclick ScriptJs.windowOnclick ScriptJs.keydownListener
             ScriptJs.themeToggleClick ScriptJs.bodyClick.

(** The second copy has no listener on the body; the slot is never used
    because that copy never sets [bodyClickSet]. *)
Definition part000Handlers : Handlers :=
  mkHandlers Part000.closeOnclick Part000.windowOnclick Part000.keydownListener
             Part000.themeToggleClick (fun _ => mret tt).

(** An exception that escapes a handler, or the top level of the script, is
    reported on the console; what was mutated before it stays mutated. *)
Definition runListener (h : JS unit) (w : World) : World :=
  match h w with
  | (w', Normal _) => w'
  | (w', Thrown err) => withConsoleErrors (fun l => l ++ [err])%list w'
  end.

(** Loading the page runs the top level once, with no handler installed yet. *)
Definition load (main : JS unit) (w : World) : World :=
  runListener main (withListeners (fun _ => noListeners) w).

(** The elements a click on [target] bubbles through: the target first, the
    body last. *)
Definition ancestorsOrSelf (target : Path) : list Path :=
  (fun k => take k target) <$> reverse (seq 0 (S (length target))).

Section Dispatch.
Variable H : Handlers.

(** The handlers on one element of the bubbling path, in the order in
    which the script installed them. *)
Definition clickAt (target q : Path) (w : World) : World :=
  let w1 := if bool_decide (closeOnclickOn (listeners w) = Some q)
            then runListener (onCloseClick H) w else w in
  let w2 := if bool_decide (themeToggleClickOn (listeners w1) = Some q)
            then runListener (onThemeToggleClick H q) w1 else w1 in
  if bool_decide (q = documentBody) && bodyClickSet (listeners w2)
  then runListener (onBodyClick H target) w2 else w2.

Definition dispatchClick (target : Path) (w : World) : World :=
  let w' := foldl (fun w q => clickAt target q w) w (ancestorsOrSelf target) in
  if windowOnclickSet (listeners w')
  then runListener (onWindowClick H target) w' else w'.

Definition dispatchKeydown (key : string) (w : World) : World :=
  if keydownListenerSet (listeners w)
  then runListener (onKeydown H key) w else w.
End Dispatch.




(** ** Reading the page *)

(** The text that the element with this id holds: the string last written
    into it, character for character.  This is the content of the element,
    not yet what a reader sees of it; see [readInnerText]. *)
Definition innerTextOf (id : string) (w : World) : option string :=
  p ← findFirst (hasId id) (body w);
  innerText <$> elemAt (body w) p.

(** Reading [el.innerText] back.  The getter returns the text as the page
    renders it, which depends on the markup around the element and on the
    style sheets; neither is part of the repository, so the rendering of
    the text held by the element with a given id is a parameter. *)
Definition readInnerText (render : string -> string -> string)
    (id : string) (w : World) : option string :=
  render id <$> innerTextOf id w.

(** A space or a tab. *)
Definition isBlank (c : Ascii.ascii) : bool :=
  bool_decide (Ascii.nat_of_ascii c = 32) || bool_decide (Ascii.nat_of_ascii c = 9).

Fixpoint collapseFrom (started gap : bool) (s : string) : string :=
  match s with
  | EmptyString => EmptyString
  | String c s' =>
      if isBlank c then collapseFrom started true s'
      else if started && gap
           then String (Ascii.ascii_of_nat 32) (String c (collapseFrom true false s'))
           else String c (collapseFrom true false s')
  end.

(** The rendering of a one-line text by an element that is a block of its
    own under the default white-space rules: spaces and tabs at the two
    ends are dropped and every run of them in between becomes one space. *)
Definition blockText (s : string) : string :=
  collapseFrom false false s.

Definition displayOf (id : string) (w : World) : option string :=
  p ← findFirst (hasId id) (body w);
  display <$> elemAt (body w) p.

(** The [data-theme] attribute of the body, the displayed theme. *)
Definition dataTheme (w : World) : option string :=
  e ← elemAt (body w) documentBody;
  attributes e !! "data-theme".

(** The value stored under the key [theme]. *)
Definition storedTheme (w : World) : option string :=
  localStorage w !! "theme".

(** ** Frames *)

(** The observation [g] has the same value after a run as before it. *)
Definition unchanged {B} (g : World -> B) : relation World :=
  fun w w' => g w' = g w.

(** Every run of [m], completed or thrown, relates the state before it to
    the state after it. *)
Definition preserves {A} (R : relation World) (m : JS A) : Prop :=
  forall w, R w (exec m w).

(** No handler of [H] changes the observation [g], and no report on the
    console does. *)
Definition keptByHandlers {B} (H : Handlers) (g : World -> B) : Prop :=
  (forall f w, g (withConsoleErrors f w) = g w) /\
  preserves (unchanged g) (onCloseClick H) /\
  (forall t, preserves (unchanged g) (onWindowClick H t)) /\
  (forall k, preserves (unchanged g) (onKeydown H k)) /\
  (forall t, preserves (unchanged g) (onThemeToggleClick H t)) /\
  (forall t, preserves (unchanged g) (onBodyClick H t)).

(** Every handler of [H] relates the state before its run to the state
    after it by [R], and so does a report on the console. *)
Definition heldByHandlers (H : Handlers) (R : relation World) : Prop :=
  (forall f w, R w (withConsoleErrors f w)) /\
  preserves R (onCloseClick H) /\
  (forall t, preserves R (onWindowClick H t)) /\
  (forall k, preserves R (onKeydown H k)) /\
  (forall t, preserves R (onThemeToggleClick H t)) /\
  (forall t, preserves R (onBodyClick H t)).

(** ** A sample page

    A leaderboard page that meets the script's expectations: the modal with
    its close control and five text slots, the theme switch with its icon,
    one action card and one plain block. *)

Definition leaf (tag : string) (id : option string) (classes : list string) : Node :=
  El (mkElement tag id classes ∅ "" "") [].

Definition sampleModal : Node :=
  El (mkElement "div" (Some "modal") ["modal"] ∅ "" "none")
     [ El (mkElement "div" None ["modal-content"] ∅ "" "")
          [ leaf "span" None ["close"];
            leaf "h2" (Some "modal-title") [];
            leaf "p" (Some "modal-details") [];
            leaf "p" (Some "modal-user") [];
            leaf "p" (Some "modal-score") [];
            leaf "p" (Some "modal-time") [] ] ].

Definition sampleToggle : Node :=
  El (mkElement "button" (Some "themeToggle") ["theme-toggle"] ∅ "" "")
     [ leaf "i" None ["fa-solid"; "fa-moon"] ].

Definition sampleCardData : gmap string string :=
  <["data-summary" := "Did X"]>
  (<["data-user" := "Alice"]>
  (<["data-score" := "5"]>
  (<["data-time" := "2024-01-01"]> ∅))).

Definition sampleCard : Node :=
  El (mkElement "div" None ["action-card-modern"] sampleCardData "" "")
     [ El (mkElement "div" None ["card-header"] ∅ "" "")
          [ leaf "span" None ["user-name"] ] ].

Definition samplePlain : Node :=
  El (mkElement "div" None ["footer"] ∅ "" "") [ leaf "span" None [] ].

Definition sampleBody : Node :=
  El (mkElement "body" None [] ∅ "" "")
     [ sampleModal; sampleToggle; sampleCard; samplePlain ].

Definition sampleWorld : World :=
  mkWorld sampleBody [] ∅ false noListeners [] [].

(** ** What a page must provide *)

Definition present (id : string) (w : World) : bool :=
  match findFirst (hasId id) (body w) with
  | Some _ => true
  | None => false
  end.

(** The modal and its five text slots are on the page. *)
Definition modalReady (w : World) : bool :=
  forallb (fun id => present id w)
    ["modal-title"; "modal-details"; "modal-user"; "modal-score";
     "modal-time"; "modal"].

(** The five text slots, in the order in which [openModal] writes them. *)
Definition slotIds : list string :=
  ["modal-title"; "modal-details"; "modal-user"; "modal-score"; "modal-time"].

(** No element of [ps] lies inside another one. *)
Definition apart (ps : list Path) : bool :=
  forallb (fun a => forallb (fun b => negb (inside a b)) ps) ps.

(** The five slots are on the page and none of them lies inside another:
    writing one of them removes none of the others. *)
Definition slotsApart (w : World) : bool :=
  match (fun id => findFirst (hasId id) (body w)) <$> slotIds with
  | [Some p1; Some p2; Some p3; Some p4; Some p5] => apart [p1; p2; p3; p4; p5]
  | _ => false
  end.

(** The modal is on the page, and not inside one of the slots at [ps]. *)
Definition modalOutside (w : World) : bool :=
  match findFirst (hasId "modal") (body w) with
  | Some modal =>
      forallb (fun id =>
                 match findFirst (hasId id) (body w) with
                 | Some p => negb (inside modal p)
                 | None => true
                 end) slotIds
  | None => false
  end.

(** What [openModal] needs of a page: the modal and its five slots, with
    no slot inside another slot and the modal not inside a slot. *)
Definition modalWellFormed (w : World) : bool :=
  slotsApart w && modalOutside w.

(** The page after the five writes of [openModal], lines 2 to 6. *)
Definition slotsFilled (summary name score time : JSValue)
    (p1 p2 p3 p4 p5 : Path) (n : Node) : Node :=
  replaceAt (withText ("Time: " ++ toString time)) p5
    (replaceAt (withText ("+" ++ toString score ++ " pts")) p4
      (replaceAt (withText (toString name)) p3
        (replaceAt (withText (toString summary)) p2
          (replaceAt (withText ("Action by " ++ toString name)) p1 n)))).

(** The body that a completed [openModal] leaves: the five texts written,
    in the order of lines 2 to 6, then the modal displayed. *)
Definition modalFilled (summary name score time : JSValue)
    (p1 p2 p3 p4 p5 p6 : Path) (n : Node) : Node :=
  updateAt (withDisplay "block") p6
    (replaceAt (withText ("Time: " ++ toString time)) p5
      (replaceAt (withText ("+" ++ toString score ++ " pts")) p4
        (replaceAt (withText (toString name)) p3
          (replaceAt (withText (toString summary)) p2
            (replaceAt (withText ("Action by " ++ toString name)) p1 n))))).

(** Where the page has the five slots and the modal. *)
Definition modalPaths (w : World) : list (option Path) :=
  (fun id => findFirst (hasId id) (body w)) <$> (slotIds ++ ["modal"])%list.

(** A run that starts on a well-formed page leaves the five slots and the
    modal where they were. *)
Definition keepsModal : relation World :=
  fun w w' => modalWellFormed w = true -> modalPaths w' = modalPaths w.

(** The theme switch [themeToggle] contains an icon element. *)
Definition iconPresent (themeToggle : Path) (w : World) : bool :=
  match selectBelow (hasTag "i") themeToggle (body w) with
  | Some _ => true
  | None => false
  end.

(** ** Action cards *)

(** The element at [q] is marked as an action card. *)
Definition cardAt (w : World) (q : Path) : bool :=
  match elemAt (body w) q with
  | Some e => hasClass "action-card-modern" e
  | None => false
  end.

(** [p] refers to an element of the page. *)
Definition onPage (w : World) (p : Path) : bool :=
  match nodeAt (body w) p with
  | Some _ => true
  | None => false
  end.

(** The elements strictly below [card] on the way down to [card ++ rest],
    the last one included. *)
Definition belowOnTheWay (card rest : Path) : list Path :=
  (fun k => card ++ take k rest)%list <$> seq 1 (length rest).

(** No element strictly between the card and the click target, nor the
    target itself unless it is the card, is marked as a card. *)
Definition nearestCard (w : World) (card rest : Path) : bool :=
  forallb (fun q => negb (cardAt w q)) (belowOnTheWay card rest).

(** No element from the click target up to the body is marked as a card. *)
Definition noCardAbove (w : World) (target : Path) : bool :=
  forallb (fun q => negb (cardAt w q)) (ancestorsOrSelf target).

(** [openModal] was entered exactly once during the run of the delegate
    for a click on [target], with the arguments [args]. *)
Definition opensOnceWith (w : World) (target : Path) (args : OpenArgs) : Prop :=
  openModalCalls (exec (ScriptJs.bodyClick target) w) =
    (openModalCalls w ++ [args])%list.

(** The handlers can take the card mark away from an element (the toggle
    rewrites the class of its icon); they never put it on one.  So a target
    with no card above it before a run has none after it. *)
Definition stillNoCard (target : Path) : relation World :=
  fun w w' => noCardAbove w target = true -> noCardAbove w' target = true.

(** ** The theme rule in the words of the specification

    "resolve to dark if either source indicates dark, else light": the
    saved preference and the system signal are each asked whether they say
    dark. *)
Definition resolvedBySpec (savedTheme : option string) (systemPrefersDark : bool)
    : string :=
  if bool_decide (savedTheme = Some "dark") || systemPrefersDark
  then "dark" else "light".

(** The saved values the script itself can have written, and the two that
    make it fall back on the system signal. *)
Definition savedThemeValid (w : World) : bool :=
  match storedTheme w with
  | None => true
  | Some s => bool_decide (s ∈ [""; "light"; "dark"])
  end.

(** Theme setup followed by [n] runs of the toggle handler. *)
Definition afterToggles (n : nat) (themeToggle : Path) (w : World) : World :=
  Nat.iter n (exec (ScriptJs.themeToggleClick themeToggle))
           (exec ScriptJs.themeSetup w).

(** ** More sample pages *)

(** The sample page of a visitor who saved [light] on a system that
    prefers dark. *)
Definition savedLightSystemDark : World :=
  mkWorld sampleBody [] {["theme" := "light"]} true noListeners [] [].

(** The sample page with a value under [theme] that the script never
    wrote. *)
Definition savedBlue : World :=
  mkWorld sampleBody [] {["theme" := "blue"]} false noListeners [] [].

(** The sample page with an empty theme switch: the button is there, its
    icon is not. *)
Definition iconlessWorld : World :=
  mkWorld
    (El (mkElement "body" None [] ∅ "" "")
        [ sampleModal;
          El (mkElement "button" (Some "themeToggle") ["theme-toggle"] ∅ "" "") [];
          sampleCard; samplePlain ])
    [] ∅ false noListeners [] [].

(** The sample page without a theme switch. *)
Definition toggleFreeWorld : World :=
  mkWorld
    (El (mkElement "body" None [] ∅ "" "") [ sampleModal; sampleCard; samplePlain ])
    [] ∅ true noListeners [] [].

(** A page on which one action card sits inside another: the outer card
    carries the example data of the specification, the inner one its own. *)
Definition innerCardData : gmap string string :=
  <["data-summary" := "Did Y"]>
  (<["data-user" := "Bob"]>
  (<["data-score" := "7"]>
  (<["data-time" := "2024-02-02"]> ∅))).

Definition nestedCardsWorld : World :=
  mkWorld
    (El (mkElement "body" None [] ∅ "" "")
        [ sampleModal;
          El (mkElement "div" None ["action-card-modern"] sampleCardData "" "")
             [ El (mkElement "div" None ["action-card-modern"] innerCardData "" "")
                  [ leaf "span" None ["user-name"] ] ] ])
    [] ∅ false noListeners [] [].

(** ** Pages that lack something *)

(** The five text slots without the modal container around them. *)
Definition slotsOnlyWorld : World :=
  mkWorld
    (El (mkElement "body" None [] ∅ "" "")
        [ El (mkElement "div" None ["modal-content"] ∅ "" "")
             [ leaf "h2" (Some "modal-title") [];
               leaf "p" (Some "modal-details") [];
               leaf "p" (Some "modal-user") [];
               leaf "p" (Some "modal-score") [];
               leaf "p" (Some "modal-time") [] ] ])
    [] ∅ false noListeners [] [].

(** A page with the theme switch and a card but no modal, hence no close
    control either. *)
Definition modalFreeWorld : World :=
  mkWorld
    (El (mkElement "body" None [] ∅ "" "") [ sampleToggle; sampleCard; samplePlain ])
    [] ∅ false noListeners [] [].

(** A card that lacks the [data-score] attribute. *)
Definition scorelessCardWorld : World :=
  mkWorld
    (El (mkElement "body" None [] ∅ "" "")
        [ sampleModal;
          El (mkElement "div" None ["action-card-modern"]
                (<["data-summary" := "Did X"]>
                 (<["data-user" := "Alice"]>
                 (<["data-time" := "2024-01-01"]> ∅))) "" "")
             [ leaf "span" None ["user-name"] ] ])
    [] ∅ false noListeners [] [].

(** The element on which a handler sits is the click target or one of its
    ancestors: the click will reach the handler. *)
Definition handlerOnPath (h : option Path) (target : Path) : bool :=
  match h with
  | Some q => bool_decide (q ∈ ancestorsOrSelf target)
  | None => false
  end.

(** The click target is the modal element itself. *)
Definition modalAt (w : World) (target : Path) : bool :=
  bool_decide (findFirst (hasId "modal") (body w) = Some target).

(** The sample page with the details slot placed inside the title slot. *)
Definition nestedSlotsWorld : World :=
  mkWorld
    (El (mkElement "body" None [] ∅ "" "")
        [ El (mkElement "div" (Some "modal") ["modal"] ∅ "" "none")
             [ El (mkElement "div" None ["modal-content"] ∅ "" "")
                  [ leaf "span" None ["close"];
                    El (mkElement "h2" (Some "modal-title") [] ∅ "" "")
                       [ leaf "p" (Some "modal-details") [] ];
                    leaf "p" (Some "modal-user") [];
                    leaf "p" (Some "modal-score") [];
                    leaf "p" (Some "modal-time") [] ] ];
          sampleToggle; sampleCard; samplePlain ])
    [] ∅ false noListeners [] [].


(** * Properties *)

(** ** The document tree *)

Section TreeLemmas.
Implicit Types (n c : Node) (p q : Path) (f : Element -> Element)
         (sel : Element -> bool).

Lemma nodeAt_nil n : nodeAt n [] = Some n.
Proof. reflexivity. Qed.

Lemma elemAt_nil n : elemAt n [] = Some (rootElement n).
Proof. reflexivity. Qed.

Lemma elemAt_cons n i p :
  elemAt n (i :: p) = c ← children n !! i; elemAt c p.
Proof. unfold elemAt; simpl. by destruct (children n !! i). Qed.

(** An update rewrites the record at its own path and at no other. *)
Lemma elemAt_updateAt f p n q :
  elemAt (updateAt f p n) q =
    if decide (p = q) then f <$> elemAt n q else elemAt n q.
Proof.
  revert n q. induction p as [|i p IH]; intros n q.
  - by destruct q as [|j q]; case_decide.
  - destruct q as [|j q]; [by case_decide|].
    rewrite !elemAt_cons. cbn [updateAt children].
    destruct (decide (i = j)) as [->|Hij].
    + rewrite list_lookup_alter_eq.
      destruct (children n !! j) as [c|]; simpl; [|by case_decide].
      rewrite IH. repeat case_decide; congruence.
    + rewrite list_lookup_alter_ne by done.
      case_decide; congruence.
Qed.

Lemma elemAt_updateAt_eq f p n :
  elemAt (updateAt f p n) p = f <$> elemAt n p.
Proof. by rewrite elemAt_updateAt, decide_True. Qed.

Lemma elemAt_updateAt_ne f p n q :
  p ≠ q → elemAt (updateAt f p n) q = elemAt n q.
Proof. intros. by rewrite elemAt_updateAt, decide_False. Qed.

(** Below an update the tree has the same shape: every subtree is the old
    one, or the old one updated somewhere. *)
Lemma nodeAt_updateAt f p n q :
  nodeAt (updateAt f p n) q = nodeAt n q ∨
  ∃ p', nodeAt (updateAt f p n) q = updateAt f p' <$> nodeAt n q.
Proof.
  revert n q. induction p as [|i p IH]; intros n q.
  - destruct q as [|j q]; simpl.
    + right. by exists [].
    + by left.
  - destruct q as [|j q]; simpl.
    + right. by exists (i :: p).
    + destruct (decide (i = j)) as [->|Hij].
      * rewrite list_lookup_alter_eq.
        destruct (children n !! j) as [c|]; simpl; [apply IH | by left].
      * rewrite list_lookup_alter_ne by done. by left.
Qed.

Lemma firstIn_alter {A} (search : A → option Path) (g : A → A) i ks j :
  (∀ k, search (g k) = search k) →
  firstIn search (alter g i ks) j = firstIn search ks j.
Proof.
  intros Hg. revert i j. induction ks as [|k ks IH]; intros i j; [done|].
  destruct i as [|i]; simpl.
  - by rewrite Hg.
  - destruct (search k); [done | apply IH].
Qed.

(** A selector that does not look at what [f] changes finds the same
    element after the update. *)
Lemma findFirst_updateAt sel f p n :
  (∀ e, sel (f e) = sel e) →
  findFirst sel (updateAt f p n) = findFirst sel n.
Proof.
  intros Hf. revert n. induction p as [|i p IH]; intros [e kids]; simpl.
  - by rewrite Hf.
  - by rewrite firstIn_alter.
Qed.

Lemma findFirstBelow_updateAt sel f p n :
  (∀ e, sel (f e) = sel e) →
  findFirstBelow sel (updateAt f p n) = findFirstBelow sel n.
Proof.
  intros Hf. unfold findFirstBelow. destruct p as [|i p]; simpl; [done|].
  apply firstIn_alter. intros k. by apply findFirst_updateAt.
Qed.

Lemma selectBelow_updateAt sel f p base n :
  (∀ e, sel (f e) = sel e) →
  selectBelow sel base (updateAt f p n) = selectBelow sel base n.
Proof.
  intros Hf. unfold selectBelow.
  destruct (nodeAt_updateAt f p n base) as [->|[p' ->]]; [done|].
  destruct (nodeAt n base) as [m|]; simpl; [|done].
  by rewrite findFirstBelow_updateAt.
Qed.

Lemma firstIn_Some {A} (search : A → option Path) ks j r :
  firstIn search ks j = Some r →
  ∃ i k p, r = (j + i) :: p ∧ ks !! i = Some k ∧ search k = Some p.
Proof.
  revert j. induction ks as [|k ks IH]; intros j; simpl; [done|].
  destruct (search k) as [p|] eqn:Hk.
  - intros [= <-]. exists 0, k, p. by rewrite Nat.add_0_r.
  - intros (i & k' & p & -> & Hi & Hp)%IH.
    exists (S i), k', p. split_and!; [f_equal; lia | done | done].
Qed.

(** What a selector finds is an element, and it satisfies the selector. *)
Lemma findFirst_Some sel n p :
  findFirst sel n = Some p → ∃ e, elemAt n p = Some e ∧ sel e = true.
Proof.
  revert n. induction p as [|i p IH]; intros [e kids]; simpl.
  - destruct (sel e) eqn:He; [by eauto|].
    by intros (i & k & p & ? & _)%firstIn_Some.
  - destruct (sel e) eqn:He; [done|].
    intros (i' & k & p' & [= -> ->] & Hk & Hp)%firstIn_Some.
    rewrite elemAt_cons. simpl. rewrite Hk. simpl. by apply IH.
Qed.

(** Two different ids are never found on one element. *)
Lemma findFirst_hasId_ne n id1 id2 p1 p2 :
  id1 ≠ id2 →
  findFirst (hasId id1) n = Some p1 →
  findFirst (hasId id2) n = Some p2 →
  p1 ≠ p2.
Proof.
  intros Hne (e1 & He1 & H1)%findFirst_Some (e2 & He2 & H2)%findFirst_Some ->.
  unfold hasId in *. apply bool_decide_eq_true in H1, H2. congruence.
Qed.

(** [closest] answers with an element on the way up that satisfies the
    selector. *)
Lemma closestAt_Some sel n p q :
  closestAt sel n p = Some q →
  q `prefix_of` p ∧ ∃ e, elemAt n q = Some e ∧ sel e = true.
Proof.
  revert n q. induction p as [|i p IH]; intros n q; simpl.
  - destruct (sel (rootElement n)) eqn:Hn; [|done].
    intros [= <-]. split; [done | by eauto].
  - destruct (children n !! i) as [c|] eqn:Hc; [|done].
    destruct (closestAt sel c p) as [q'|] eqn:Hq.
    + intros [= <-]. destruct (IH _ _ Hq) as (Hpre & e & He & Hsel).
      split; [by apply prefix_cons|].
      exists e. rewrite elemAt_cons, Hc. done.
    + destruct (sel (rootElement n)) eqn:Hn; [|done].
      intros [= <-]. split; [apply prefix_nil | by eauto].
Qed.

(** No element on the way up satisfies the selector: [closest] is
    [null]. *)
Lemma closestAt_None sel n p :
  (∀ q e, q `prefix_of` p → elemAt n q = Some e → sel e = false) →
  closestAt sel n p = None.
Proof.
  intros Hno. destruct (closestAt sel n p) as [q|] eqn:Hq; [|done].
  apply closestAt_Some in Hq as (Hpre & e & He & Hsel).
  rewrite (Hno _ _ Hpre He) in Hsel. done.
Qed.

(** [closest] answers with the nearest such element. *)
Lemma closestAt_nearest sel n p q e :
  is_Some (nodeAt n p) →
  q `prefix_of` p →
  elemAt n q = Some e →
  sel e = true →
  (∀ q' e', q `prefix_of` q' → q' `prefix_of` p → q' ≠ q →
            elemAt n q' = Some e' → sel e' = false) →
  closestAt sel n p = Some q.
Proof.
  revert n q. induction p as [|i p IH]; intros n q Hp Hpre He Hsel Hnear.
  - apply prefix_nil_inv in Hpre as ->. simpl.
    rewrite elemAt_nil in He. injection He as ->. by rewrite Hsel.
  - simpl in *. destruct (children n !! i) as [c|] eqn:Hc;
      [|by destruct Hp].
    destruct q as [|j q].
    + rewrite (closestAt_None sel c p).
      * rewrite elemAt_nil in He. injection He as ->. by rewrite Hsel.
      * intros q' e' Hq' He'.
        apply (Hnear (i :: q') e'); [apply prefix_nil | by apply prefix_cons
          | done | by rewrite elemAt_cons, Hc].
    + pose proof (prefix_cons_inv_1 _ _ _ _ Hpre) as ->.
      apply prefix_cons_inv_2 in Hpre.
      rewrite elemAt_cons, Hc in He. simpl in He.
      rewrite (IH c q); [done | done | done | done | done |].
      intros q' e' Hq1 Hq2 Hne He'.
      apply (Hnear (i :: q') e'); [by apply prefix_cons | by apply prefix_cons
        | congruence | by rewrite elemAt_cons, Hc].
Qed.

(** *** Writing a text *)

Lemma inside_irrefl p : inside p p = false.
Proof.
  induction p as [|i p IH]; simpl; [done|].
  by rewrite IH, andb_false_r.
Qed.

(** After a text is written at [p], the element at [p] holds it, the
    elements inside [p] are gone, and every other element is as before. *)
Lemma elemAt_replaceAt v p n q :
  elemAt (replaceAt (withText v) p n) q =
    if decide (p = q) then withInnerText v <$> elemAt n q
    else if inside q p then None else elemAt n q.
Proof.
  revert n q. induction p as [|i p IH]; intros n q.
  - by destruct q as [|j q]; case_decide.
  - destruct q as [|j q]; [by case_decide|].
    rewrite !elemAt_cons. cbn [replaceAt children inside].
    destruct (decide (i = j)) as [->|Hij].
    + rewrite list_lookup_alter_eq, bool_decide_eq_true_2 by done.
      destruct (children n !! j) as [c|]; simpl.
      * rewrite IH. repeat case_decide; congruence.
      * case_decide; [done|]. by destruct (inside q p).
    + rewrite list_lookup_alter_ne by done.
      rewrite bool_decide_eq_false_2 by done.
      case_decide; [congruence | done].
Qed.

Lemma elemAt_replaceAt_eq v p n :
  elemAt (replaceAt (withText v) p n) p = withInnerText v <$> elemAt n p.
Proof. by rewrite elemAt_replaceAt, decide_True. Qed.

Lemma elemAt_replaceAt_ne v p n q :
  p ≠ q → inside q p = false →
  elemAt (replaceAt (withText v) p n) q = elemAt n q.
Proof. intros Hne Hin. by rewrite elemAt_replaceAt, decide_False, Hin. Qed.

Lemma firstIn_alter_keep {A} (search : A → option Path) (g : A → A) i ks j r :
  firstIn search ks j = r →
  (∀ x, ks !! i = Some x →
        (search x = None → search (g x) = None) ∧
        (∀ q, search x = Some q → r = Some ((j + i) :: q) →
              search (g x) = Some q)) →
  firstIn search (alter g i ks) j = r.
Proof.
  revert i j. induction ks as [|k ks IH]; intros i j Hr Hg; [done|].
  destruct i as [|i]; simpl in *.
  - destruct (Hg k eq_refl) as [Hnone Hsome].
    destruct (search k) as [q|] eqn:Hk.
    + rewrite (Hsome q eq_refl); [done|]. by rewrite Nat.add_0_r.
    + by rewrite Hnone.
  - destruct (search k); [done|]. apply IH; [done|].
    intros x Hx. destruct (Hg x Hx) as [Hnone Hsome]. split; [done|].
    intros q Hq Hrq. apply Hsome; [done|]. rewrite Hrq. f_equal. f_equal. lia.
Qed.

(** A selector finds the same element after a text is written, unless the
    element it found lay inside the written one; and writing a text never
    makes a selector find something where it found nothing. *)
Lemma findFirst_replaceAt sel v p n :
  (∀ e, sel (withInnerText v e) = sel e) →
  match findFirst sel n with
  | Some q =>
      inside q p = false → findFirst sel (replaceAt (withText v) p n) = Some q
  | None => findFirst sel (replaceAt (withText v) p n) = None
  end.
Proof.
  intros Hsel. revert n. induction p as [|i p IH]; intros [e kids].
  - cbn [replaceAt withText rootElement findFirst firstIn]. rewrite Hsel.
    destruct (sel e); [done|].
    destruct (firstIn (findFirst sel) kids 0) as [q|] eqn:Hq; [|done].
    apply firstIn_Some in Hq as (j & k & q' & -> & _). done.
  - cbn [replaceAt rootElement children findFirst].
    destruct (sel e); [done|].
    destruct (firstIn (findFirst sel) kids 0) as [q|] eqn:Hq.
    + intros Hin. apply firstIn_alter_keep; [done|].
      intros c Hc. specialize (IH c). split.
      * intros Hnone. by rewrite Hnone in IH.
      * intros q' Hq' [= ->]. rewrite Hq' in IH. apply IH.
        cbn [inside] in Hin. by rewrite bool_decide_eq_true_2 in Hin.
    + apply firstIn_alter_keep; [done|].
      intros c Hc. specialize (IH c). split; [|done].
      intros Hnone. by rewrite Hnone in IH.
Qed.

Lemma findFirst_replaceAt_Some sel v p n q :
  (∀ e, sel (withInnerText v e) = sel e) →
  findFirst sel n = Some q → inside q p = false →
  findFirst sel (replaceAt (withText v) p n) = Some q.
Proof.
  intros Hsel Hq Hin. pose proof (findFirst_replaceAt sel v p n Hsel) as H.
  rewrite Hq in H. auto.
Qed.

Lemma findFirst_replaceAt_None sel v p n :
  (∀ e, sel (withInnerText v e) = sel e) →
  findFirst sel n = None →
  findFirst sel (replaceAt (withText v) p n) = None.
Proof.
  intros Hsel Hq. pose proof (findFirst_replaceAt sel v p n Hsel) as H.
  by rewrite Hq in H.
Qed.
End TreeLemmas.

(** ** Running script code *)

Ltac js_unfold :=
  unfold exec, outcome, getElementById, querySelector, querySelectorIn,
    closest, setInnerText, setDisplay, setClassName, setAttribute,
    getAttribute, dataset, getItem, setItem, matchMediaPrefersDark,
    setCloseOnclick, setWindowOnclick, addKeydownListener,
    addThemeToggleClick, addBodyClick, appendStyle in *;
  unfold mbind, JS_bind, mret, JS_ret, modify, gets, throw in *.

(** Beta-reduces the unfolded monad and projects out of updated worlds,
    without touching the tree operations. *)
Ltac js_step :=
  cbn beta iota zeta delta
    [fst snd deref body headStyles localStorage prefersDark listeners
     openModalCalls consoleErrors withBody withHeadStyles withLocalStorage
     withListeners withOpenModalCalls withConsoleErrors].

(** The setters of the script leave ids and tags alone, so lookups by id
    and by tag commute with them. *)
Ltac same_lookup :=
  repeat first
    [ rewrite findFirst_updateAt by done
    | rewrite selectBelow_updateAt by done ].

Ltac ne_by_id :=
  eapply findFirst_hasId_ne; [ | eassumption | eassumption ]; done.

Lemma present_true id w :
  present id w = true → ∃ p, findFirst (hasId id) (body w) = Some p.
Proof. unfold present. destruct (findFirst _ _); [by eauto | done]. Qed.

Lemma modalReady_paths w :
  modalReady w = true →
  ∃ p1 p2 p3 p4 p5 p6,
    findFirst (hasId "modal-title") (body w) = Some p1 ∧
    findFirst (hasId "modal-details") (body w) = Some p2 ∧
    findFirst (hasId "modal-user") (body w) = Some p3 ∧
    findFirst (hasId "modal-score") (body w) = Some p4 ∧
    findFirst (hasId "modal-time") (body w) = Some p5 ∧
    findFirst (hasId "modal") (body w) = Some p6.
Proof.
  unfold modalReady. simpl. rewrite !andb_true_iff.
  intros ((p1 & ?)%present_true & (p2 & ?)%present_true & (p3 & ?)%present_true
          & (p4 & ?)%present_true & (p5 & ?)%present_true
          & (p6 & ?)%present_true & _).
  by exists p1, p2, p3, p4, p5, p6.
Qed.

Lemma innerText_withInnerText v (o : option Element) :
  is_Some o → innerText <$> (withInnerText v <$> o) = Some v.
Proof. by intros [e ->]. Qed.

Lemma display_withDisplay v (o : option Element) :
  is_Some o → display <$> (withDisplay v <$> o) = Some v.
Proof. by intros [e ->]. Qed.

Lemma findFirst_is_Some sel n p :
  findFirst sel n = Some p → is_Some (elemAt n p).
Proof. intros (e & -> & _)%findFirst_Some. by eexists. Qed.

Lemma elemAt_updateAt_is_Some f p n q :
  is_Some (elemAt n q) → is_Some (elemAt (updateAt f p n) q).
Proof.
  intros [e He]. rewrite elemAt_updateAt, He. case_decide; by eexists.
Qed.

Lemma elemAt_replaceAt_is_Some v p n q :
  inside q p = false →
  is_Some (elemAt n q) → is_Some (elemAt (replaceAt (withText v) p n) q).
Proof.
  intros Hin [e He]. rewrite elemAt_replaceAt, He, Hin. case_decide; by eexists.
Qed.

(** Solves a lookup by id in a page into which texts were written, from
    the lookups in the page before and the facts that keep the element
    outside the written slots. *)
Ltac lookup_tac :=
  lazymatch goal with
  | |- findFirst _ (replaceAt _ _ _) = Some _ =>
      apply findFirst_replaceAt_Some; [done | lookup_tac | assumption]
  | |- findFirst _ (updateAt _ _ _) = Some _ =>
      rewrite findFirst_updateAt by done; lookup_tac
  | |- _ => assumption
  end.

Ltac step_lookup id p :=
  match goal with
  | |- context [findFirst (hasId id) ?T] =>
      let E := fresh in
      assert (findFirst (hasId id) T = Some p) as E by lookup_tac;
      rewrite E; clear E
  end.

(** Unpacks [apart] and its like into one fact [inside a b = false] for
    each pair. *)
Ltac apart_facts H :=
  unfold apart in H; cbn [forallb] in H;
  rewrite ?andb_true_iff, ?negb_true_iff in H; destruct_and!.

Lemma modalWellFormed_paths w :
  modalWellFormed w = true →
  ∃ p1 p2 p3 p4 p5 p6,
    findFirst (hasId "modal-title") (body w) = Some p1 ∧
    findFirst (hasId "modal-details") (body w) = Some p2 ∧
    findFirst (hasId "modal-user") (body w) = Some p3 ∧
    findFirst (hasId "modal-score") (body w) = Some p4 ∧
    findFirst (hasId "modal-time") (body w) = Some p5 ∧
    findFirst (hasId "modal") (body w) = Some p6 ∧
    apart [p1; p2; p3; p4; p5] = true ∧
    forallb (λ p, negb (inside p6 p)) [p1; p2; p3; p4; p5] = true.
Proof.
  unfold modalWellFormed, slotsApart, modalOutside, slotIds.
  cbn [fmap list_fmap forallb].
  destruct (findFirst (hasId "modal-title") (body w)) as [p1|]; [|done].
  destruct (findFirst (hasId "modal-details") (body w)) as [p2|]; [|done].
  destruct (findFirst (hasId "modal-user") (body w)) as [p3|]; [|done].
  destruct (findFirst (hasId "modal-score") (body w)) as [p4|]; [|done].
  destruct (findFirst (hasId "modal-time") (body w)) as [p5|]; [|done].
  destruct (findFirst (hasId "modal") (body w)) as [p6|];
    [|by rewrite andb_false_r].
  intros [Ha Hm]%andb_true_iff.
  by exists p1, p2, p3, p4, p5, p6.
Qed.

(** [modalWellFormed] looks at the page through the six lookups only. *)
Lemma modalWellFormed_ext w w' :
  modalPaths w' = modalPaths w → modalWellFormed w' = modalWellFormed w.
Proof.
  unfold modalPaths, modalWellFormed, slotsApart, modalOutside, slotIds.
  cbn [fmap list_fmap app forallb].
  intros [= -> -> -> -> -> ->]. done.
Qed.

Lemma modalPaths_modal w w' :
  modalPaths w' = modalPaths w →
  findFirst (hasId "modal") (body w') = findFirst (hasId "modal") (body w).
Proof.
  unfold modalPaths, slotIds. cbn [fmap list_fmap app]. by intros [= _ _ _ _ _ ->].
Qed.

Section WellFormed.
Context (w : World) (p1 p2 p3 p4 p5 p6 : Path).
Hypothesis H1 : findFirst (hasId "modal-title") (body w) = Some p1.
Hypothesis H2 : findFirst (hasId "modal-details") (body w) = Some p2.
Hypothesis H3 : findFirst (hasId "modal-user") (body w) = Some p3.
Hypothesis H4 : findFirst (hasId "modal-score") (body w) = Some p4.
Hypothesis H5 : findFirst (hasId "modal-time") (body w) = Some p5.
Hypothesis H6 : findFirst (hasId "modal") (body w) = Some p6.
Hypothesis Hap : apart [p1; p2; p3; p4; p5] = true.
Hypothesis Hm : forallb (λ p, negb (inside p6 p)) [p1; p2; p3; p4; p5] = true.

(** On a well-formed page [openModal] runs to its end, and this is the
    page it leaves. *)
Lemma openModal_run summary name score time :
  ScriptJs.openModal summary name score time w =
    (mkWorld (modalFilled summary name score time p1 p2 p3 p4 p5 p6 (body w))
       (headStyles w) (localStorage w) (prefersDark w) (listeners w)
       (openModalCalls w ++ [(summary, name, score, time)])%list
       (consoleErrors w),
     Normal tt).
Proof.
  pose proof Hap as Ha. pose proof Hm as Hb. apart_facts Ha.
  cbn [forallb] in Hb. rewrite ?andb_true_iff, ?negb_true_iff in Hb. destruct_and!.
  unfold ScriptJs.openModal, modalFilled. js_unfold. js_step.
  rewrite H1. js_step. step_lookup "modal-details" p2. js_step.
  step_lookup "modal-user" p3. js_step.
  step_lookup "modal-score" p4. js_step.
  step_lookup "modal-time" p5. js_step.
  step_lookup "modal" p6. reflexivity.
Qed.

(** The lookups by id give the same six elements in the filled page. *)
Lemma modalFilled_lookups summary name score time :
  let filled := modalFilled summary name score time p1 p2 p3 p4 p5 p6 (body w) in
  findFirst (hasId "modal-title") filled = Some p1 ∧
  findFirst (hasId "modal-details") filled = Some p2 ∧
  findFirst (hasId "modal-user") filled = Some p3 ∧
  findFirst (hasId "modal-score") filled = Some p4 ∧
  findFirst (hasId "modal-time") filled = Some p5 ∧
  findFirst (hasId "modal") filled = Some p6.
Proof.
  pose proof Hap as Ha. pose proof Hm as Hb. apart_facts Ha.
  cbn [forallb] in Hb. rewrite ?andb_true_iff, ?negb_true_iff in Hb. destruct_and!.
  unfold modalFilled. split_and!; lookup_tac.
Qed.

(** And the filled page holds the five texts and shows the modal. *)
Lemma modalFilled_fields summary name score time :
  let filled := modalFilled summary name score time p1 p2 p3 p4 p5 p6 (body w) in
  innerText <$> elemAt filled p1 = Some ("Action by " ++ toString name) ∧
  innerText <$> elemAt filled p2 = Some (toString summary) ∧
  innerText <$> elemAt filled p3 = Some (toString name) ∧
  innerText <$> elemAt filled p4 = Some ("+" ++ toString score ++ " pts") ∧
  innerText <$> elemAt filled p5 = Some ("Time: " ++ toString time) ∧
  display <$> elemAt filled p6 = Some "block".
Proof.
  pose proof Hap as Ha. pose proof Hm as Hb. apart_facts Ha.
  cbn [forallb] in Hb. rewrite ?andb_true_iff, ?negb_true_iff in Hb. destruct_and!.
  pose proof (findFirst_is_Some _ _ _ H1). pose proof (findFirst_is_Some _ _ _ H2).
  pose proof (findFirst_is_Some _ _ _ H3). pose proof (findFirst_is_Some _ _ _ H4).
  pose proof (findFirst_is_Some _ _ _ H5). pose proof (findFirst_is_Some _ _ _ H6).
  unfold modalFilled. split_and!.
  all: repeat first
         [ rewrite elemAt_updateAt_ne by ne_by_id
         | rewrite elemAt_replaceAt_ne by (first [ne_by_id | assumption]) ].
  all: first [ rewrite elemAt_replaceAt_eq; apply innerText_withInnerText
             | rewrite elemAt_updateAt_eq; apply display_withDisplay ].
  all: repeat first [ apply elemAt_replaceAt_is_Some; [assumption|]
                    | apply elemAt_updateAt_is_Some ]; done.
Qed.
End WellFormed.

(** What [openModal] does on a well-formed page: it completes, the six
    elements are where they were, the five slots hold the five texts and
    the modal is displayed. *)
Lemma openModal_effect w summary name score time :
  modalWellFormed w = true →
  let w' := exec (ScriptJs.openModal summary name score time) w in
  outcome (ScriptJs.openModal summary name score time) w = Normal tt ∧
  modalPaths w' = modalPaths w ∧
  innerTextOf "modal-title" w' = Some ("Action by " ++ toString name) ∧
  innerTextOf "modal-details" w' = Some (toString summary) ∧
  innerTextOf "modal-user" w' = Some (toString name) ∧
  innerTextOf "modal-score" w' = Some ("+" ++ toString score ++ " pts") ∧
  innerTextOf "modal-time" w' = Some ("Time: " ++ toString time) ∧
  displayOf "modal" w' = Some "block".
Proof.
  intros (p1 & p2 & p3 & p4 & p5 & p6 & H1 & H2 & H3 & H4 & H5 & H6 & Hap & Hm)
    %modalWellFormed_paths w'.
  unfold w', exec, outcome.
  rewrite (openModal_run w p1 p2 p3 p4 p5 p6 H1 H2 H3 H4 H5 H6 Hap Hm).
  cbn [fst snd].
  destruct (modalFilled_lookups w p1 p2 p3 p4 p5 p6 H1 H2 H3 H4 H5 H6 Hap Hm
              summary name score time) as (L1 & L2 & L3 & L4 & L5 & L6).
  destruct (modalFilled_fields w p1 p2 p3 p4 p5 p6 H1 H2 H3 H4 H5 H6 Hap Hm
              summary name score time) as (F1 & F2 & F3 & F4 & F5 & F6).
  unfold modalPaths, innerTextOf, displayOf, slotIds.
  cbn [body fmap list_fmap app] in *.
  rewrite L1, L2, L3, L4, L5, L6, H1, H2, H3, H4, H5, H6.
  cbn [mbind option_bind]. by rewrite F1, F2, F3, F4, F5, F6.
Qed.

(** ** The modal *)

(** C1 (amended). On a page that holds the modal and its five text slots,
    with no slot inside another slot and the modal not inside a slot, for
    every (summary, user, score, time) of strings or [undefined],
    [openModal] completes, the five slots hold exactly the texts
    "Action by {user}", summary, user, "+{score} pts" and "Time: {time}",
    so that reading a field back through [innerText] yields the page's
    rendering of that text, whatever that rendering is; and the modal is
    shown ([display] is [block]). *)
Theorem openModal_fills_and_shows (w : World) (summary name score time : JSValue)
    (render : string → string → string) :
  modalWellFormed w = true →
  let w' := exec (ScriptJs.openModal summary name score time) w in
  outcome (ScriptJs.openModal summary name score time) w = Normal tt ∧
  readInnerText render "modal-title" w' =
    Some (render "modal-title" ("Action by " ++ toString name)) ∧
  readInnerText render "modal-details" w' =
    Some (render "modal-details" (toString summary)) ∧
  readInnerText render "modal-user" w' =
    Some (render "modal-user" (toString name)) ∧
  readInnerText render "modal-score" w' =
    Some (render "modal-score" ("+" ++ toString score ++ " pts")) ∧
  readInnerText render "modal-time" w' =
    Some (render "modal-time" ("Time: " ++ toString time)) ∧
  displayOf "modal" w' = Some "block".
Proof.
  intros Hwf w'.
  destruct (openModal_effect w summary name score time Hwf)
    as (Hout & _ & Ht & Hd & Hu & Hs & Hti & Hdisp).
  fold w' in Ht, Hd, Hu, Hs, Hti, Hdisp.
  unfold readInnerText. rewrite Ht, Hd, Hu, Hs, Hti. done.
Qed.

Lemma openModal_fills_and_shows_witness :
  modalWellFormed sampleWorld = true ∧
  readInnerText (λ _, blockText) "modal-score"
    (exec (ScriptJs.openModal (JSString "Did X") (JSString "Alice")
                              (JSString "5") (JSString "2024-01-01"))
          sampleWorld) = Some "+5 pts".
Proof.
  split; [reflexivity|].
  destruct (openModal_fills_and_shows sampleWorld (JSString "Did X")
              (JSString "Alice") (JSString "5") (JSString "2024-01-01")
              (λ _, blockText) eq_refl) as (_ & _ & _ & _ & Hscore & _).
  exact Hscore.
Defined.

(** C1, as stated, fails twice over.  The six elements being on the page is
    not enough: with the details slot inside the title slot, writing the
    title removes the details slot and the call ends in a [TypeError] at
    line 3.  And a text is not read back as it was written: with an empty
    user the title holds "Action by " with its final space, which a block
    under the default white-space rules renders, and [innerText] returns,
    as "Action by". *)
Lemma openModal_nested_slot_and_blank_user :
  (modalReady nestedSlotsWorld = true ∧
   outcome (ScriptJs.openModal (JSString "Did X") (JSString "Alice")
                               (JSString "5") (JSString "2024-01-01"))
           nestedSlotsWorld = Thrown TypeError) ∧
  (modalReady sampleWorld = true ∧
   readInnerText (λ _, blockText) "modal-title"
     (exec (ScriptJs.openModal (JSString "Did X") (JSString "")
                               (JSString "5") (JSString "2024-01-01"))
           sampleWorld) = Some "Action by" ∧
   readInnerText (λ _, blockText) "modal-title"
     (exec (ScriptJs.openModal (JSString "Did X") (JSString "")
                               (JSString "5") (JSString "2024-01-01"))
           sampleWorld) ≠ Some ("Action by " ++ toString (JSString ""))).
Proof. by vm_compute. Qed.

Lemma setDisplay_modal_reads v w modal :
  findFirst (hasId "modal") (body w) = Some modal →
  displayOf "modal" (withBody (updateAt (withDisplay v) modal) w) = Some v.
Proof.
  intros Hm. unfold displayOf. cbn [body withBody]. same_lookup. rewrite Hm.
  cbn [mbind option_bind]. rewrite elemAt_updateAt_eq.
  apply display_withDisplay. by eapply findFirst_is_Some.
Qed.

(** Each close handler, run on any page that has the modal, hides it. *)
Lemma closeOnclick_hides w modal :
  findFirst (hasId "modal") (body w) = Some modal →
  ScriptJs.closeOnclick w =
    (withBody (updateAt (withDisplay "none") modal) w, Normal tt).
Proof. intros Hm. unfold ScriptJs.closeOnclick. js_unfold. cbn. by rewrite Hm. Qed.

Lemma windowOnclick_backdrop_hides w modal :
  findFirst (hasId "modal") (body w) = Some modal →
  ScriptJs.windowOnclick modal w =
    (withBody (updateAt (withDisplay "none") modal) w, Normal tt).
Proof.
  intros Hm. unfold ScriptJs.windowOnclick. js_unfold. cbn. rewrite Hm.
  by rewrite bool_decide_eq_true_2.
Qed.

Lemma keydownListener_Escape_hides w modal :
  findFirst (hasId "modal") (body w) = Some modal →
  ScriptJs.keydownListener "Escape" w =
    (withBody (updateAt (withDisplay "none") modal) w, Normal tt).
Proof.
  intros Hm. unfold ScriptJs.keydownListener. js_unfold.
  rewrite bool_decide_eq_true_2 by done. cbn. by rewrite Hm.
Qed.

(** ** The theme switch *)

Lemma field_updateAt {B} (g : Element → B) f p n q :
  (∀ e, g (f e) = g e) →
  g <$> elemAt (updateAt f p n) q = g <$> elemAt n q.
Proof.
  intros Hf. rewrite elemAt_updateAt. case_decide; [|done].
  destruct (elemAt n q); simpl; by rewrite ?Hf.
Qed.

Lemma attribute_updateAt f p n q k :
  (∀ e, attributes (f e) = attributes e) →
  (e ← elemAt (updateAt f p n) q; attributes e !! k) =
  (e ← elemAt n q; attributes e !! k).
Proof.
  intros Hf. rewrite elemAt_updateAt. case_decide; [|done].
  destruct (elemAt n q); simpl; by rewrite ?Hf.
Qed.

(** Writing the body's [data-theme] and reading it back. *)
Lemma dataTheme_setAttribute v w :
  dataTheme (withBody (updateAt (withAttribute "data-theme" v) documentBody) w)
  = Some v.
Proof.
  unfold dataTheme, documentBody. cbn [body withBody updateAt].
  rewrite elemAt_nil. cbn. apply lookup_insert_eq.
Qed.

Lemma newTheme_cases (o : option string) :
  ScriptJs.newTheme o = "light" ∨ ScriptJs.newTheme o = "dark".
Proof. unfold ScriptJs.newTheme. case_bool_decide; auto. Qed.

(** The click handler when the icon is there: it runs to its end. *)
Lemma themeToggleClick_run w themeToggle icon :
  selectBelow (hasTag "i") themeToggle (body w) = Some icon →
  ScriptJs.themeToggleClick themeToggle w =
    (mkWorld
       (updateAt (withClassList (ScriptJs.iconClassName (ScriptJs.newTheme (dataTheme w)))) icon
         (updateAt (withAttribute "data-theme" (ScriptJs.newTheme (dataTheme w)))
                   documentBody (body w)))
       (headStyles w)
       (<["theme" := ScriptJs.newTheme (dataTheme w)]> (localStorage w))
       (prefersDark w) (listeners w) (openModalCalls w) (consoleErrors w),
     Normal tt).
Proof.
  intros Hi. unfold ScriptJs.themeToggleClick. js_unfold. js_step.
  same_lookup. rewrite Hi. reflexivity.
Qed.

(** The click handler when the icon is missing: the attribute is already
    written when the icon's [className] is assigned, the assignment throws,
    and the preference is not saved. *)
Lemma themeToggleClick_fault w themeToggle :
  selectBelow (hasTag "i") themeToggle (body w) = None →
  ScriptJs.themeToggleClick themeToggle w =
    (withBody (updateAt (withAttribute "data-theme" (ScriptJs.newTheme (dataTheme w)))
                        documentBody) w,
     Thrown TypeError).
Proof.
  intros Hi. unfold ScriptJs.themeToggleClick. js_unfold. js_step.
  same_lookup. rewrite Hi. reflexivity.
Qed.

Lemma iconPresent_cases themeToggle w :
  (iconPresent themeToggle w = true ∧
     ∃ icon, selectBelow (hasTag "i") themeToggle (body w) = Some icon) ∨
  (iconPresent themeToggle w = false ∧
     selectBelow (hasTag "i") themeToggle (body w) = None).
Proof. unfold iconPresent. destruct (selectBelow _ _ _); eauto. Qed.

(** Whether or not it completes, a run of the handler flips the attribute. *)
Lemma themeToggleClick_dataTheme w themeToggle :
  dataTheme (exec (ScriptJs.themeToggleClick themeToggle) w) =
    Some (ScriptJs.newTheme (dataTheme w)).
Proof.
  unfold exec.
  destruct (iconPresent_cases themeToggle w) as [(_ & icon & Hi)|(_ & Hi)].
  - rewrite (themeToggleClick_run _ _ _ Hi). cbn [fst].
    unfold dataTheme at 1. cbn [body].
    rewrite attribute_updateAt by done.
    apply (dataTheme_setAttribute _ w).
  - rewrite (themeToggleClick_fault _ _ Hi). cbn [fst].
    apply dataTheme_setAttribute.
Qed.

Lemma themeToggleClick_storedTheme w themeToggle :
  iconPresent themeToggle w = true →
  outcome (ScriptJs.themeToggleClick themeToggle) w = Normal tt ∧
  storedTheme (exec (ScriptJs.themeToggleClick themeToggle) w) =
    Some (ScriptJs.newTheme (dataTheme w)).
Proof.
  intros Hp. unfold exec, outcome.
  destruct (iconPresent_cases themeToggle w) as [(_ & icon & Hi)|(? & _)];
    [|congruence].
  rewrite (themeToggleClick_run _ _ _ Hi). cbn [fst snd].
  split; [done|]. unfold storedTheme. cbn [localStorage].
  apply lookup_insert_eq.
Qed.

(** The handler changes no tag and removes no element: the icon is still
    there for the next click. *)
Lemma themeToggleClick_iconPresent w themeToggle :
  iconPresent themeToggle (exec (ScriptJs.themeToggleClick themeToggle) w) =
  iconPresent themeToggle w.
Proof.
  unfold exec.
  destruct (iconPresent_cases themeToggle w) as [(_ & icon & Hi)|(_ & Hi)].
  - rewrite (themeToggleClick_run _ _ _ Hi). unfold iconPresent. cbn [fst body].
    by same_lookup.
  - rewrite (themeToggleClick_fault _ _ Hi). unfold iconPresent.
    cbn [fst body withBody]. by same_lookup.
Qed.

(** C3. Start from a page whose displayed theme ([data-theme] on the body)
    is [light] or [dark] and whose theme switch holds its icon.  Two runs of
    the toggle handler both complete; the first flips the displayed theme,
    the second brings it back to the original value; and after each run the
    value stored under the key [theme] equals the theme then displayed. *)
Theorem toggle_twice_restores (w : World) (themeToggle : Path) :
  dataTheme w = Some "light" ∨ dataTheme w = Some "dark" →
  iconPresent themeToggle w = true →
  let w1 := exec (ScriptJs.themeToggleClick themeToggle) w in
  let w2 := exec (ScriptJs.themeToggleClick themeToggle) w1 in
  outcome (ScriptJs.themeToggleClick themeToggle) w = Normal tt ∧
  outcome (ScriptJs.themeToggleClick themeToggle) w1 = Normal tt ∧
  dataTheme w1 ≠ dataTheme w ∧
  dataTheme w2 = dataTheme w ∧
  storedTheme w1 = dataTheme w1 ∧
  storedTheme w2 = dataTheme w2.
Proof.
  intros Hth Hicon w1 w2.
  assert (Hicon1 : iconPresent themeToggle w1 = true)
    by (unfold w1; by rewrite themeToggleClick_iconPresent).
  destruct (themeToggleClick_storedTheme w themeToggle Hicon) as [Ho1 Hs1].
  destruct (themeToggleClick_storedTheme w1 themeToggle Hicon1) as [Ho2 Hs2].
  fold w1 in Hs1. fold w2 in Hs2.
  assert (Hd1 : dataTheme w1 = Some (ScriptJs.newTheme (dataTheme w)))
    by apply themeToggleClick_dataTheme.
  assert (Hd2 : dataTheme w2 = Some (ScriptJs.newTheme (dataTheme w1)))
    by apply themeToggleClick_dataTheme.
  split_and!; try done; try congruence.
  - rewrite Hd1. destruct Hth as [-> | ->]; by vm_compute.
  - rewrite Hd2, Hd1. destruct Hth as [-> | ->]; by vm_compute.
Qed.

Lemma toggle_twice_restores_witness :
  (dataTheme (exec ScriptJs.themeSetup sampleWorld) = Some "light" ∨
   dataTheme (exec ScriptJs.themeSetup sampleWorld) = Some "dark") ∧
  iconPresent [1] (exec ScriptJs.themeSetup sampleWorld) = true ∧
  dataTheme
    (exec (ScriptJs.themeToggleClick [1])
       (exec (ScriptJs.themeToggleClick [1])
          (exec ScriptJs.themeSetup sampleWorld))) =
  dataTheme (exec ScriptJs.themeSetup sampleWorld).
Proof.
  split; [left; reflexivity|]. split; [reflexivity|].
  apply (toggle_twice_restores (exec ScriptJs.themeSetup sampleWorld) [1]);
    [left; reflexivity | reflexivity].
Defined.

(** *** Setting the theme up *)

(** Without a theme switch on the page the block does nothing. *)
Lemma themeSetup_absent w :
  findFirst (hasId "themeToggle") (body w) = None →
  ScriptJs.themeSetup w = (w, Normal tt).
Proof.
  intros Ht. unfold ScriptJs.themeSetup. js_unfold. js_step. by rewrite Ht.
Qed.

(** With the switch and its icon the block runs to its end and installs the
    click listener. *)
Lemma themeSetup_run w themeToggle icon :
  findFirst (hasId "themeToggle") (body w) = Some themeToggle →
  selectBelow (hasTag "i") themeToggle (body w) = Some icon →
  ScriptJs.themeSetup w =
    (mkWorld
       (updateAt (withClassList (ScriptJs.iconClassName
                    (ScriptJs.currentTheme (storedTheme w) (prefersDark w)))) icon
         (updateAt (withAttribute "data-theme"
                      (ScriptJs.currentTheme (storedTheme w) (prefersDark w)))
                   documentBody (body w)))
       (headStyles w) (localStorage w) (prefersDark w)
       (mkListeners (closeOnclickOn (listeners w)) (windowOnclickSet (listeners w))
                    (keydownListenerSet (listeners w)) (Some themeToggle)
                    (bodyClickSet (listeners w)))
       (openModalCalls w) (consoleErrors w),
     Normal tt).
Proof.
  intros Ht Hi. unfold ScriptJs.themeSetup. js_unfold. js_step. rewrite Ht.
  js_step. same_lookup. rewrite Hi. reflexivity.
Qed.

(** With the switch but no icon the attribute is written, then the
    assignment to the icon's [className] throws: the rest of the block,
    the registration of the click listener included, is not run. *)
Lemma themeSetup_fault w themeToggle :
  findFirst (hasId "themeToggle") (body w) = Some themeToggle →
  selectBelow (hasTag "i") themeToggle (body w) = None →
  ScriptJs.themeSetup w =
    (withBody (updateAt (withAttribute "data-theme"
                           (ScriptJs.currentTheme (storedTheme w) (prefersDark w)))
                        documentBody) w,
     Thrown TypeError).
Proof.
  intros Ht Hi. unfold ScriptJs.themeSetup. js_unfold. js_step. rewrite Ht.
  js_step. same_lookup. rewrite Hi. reflexivity.
Qed.

(** Whenever the switch is on the page, the theme displayed after setup is
    the value of line 34. *)
Lemma themeSetup_dataTheme w themeToggle :
  findFirst (hasId "themeToggle") (body w) = Some themeToggle →
  dataTheme (exec ScriptJs.themeSetup w) =
    Some (ScriptJs.currentTheme (storedTheme w) (prefersDark w)).
Proof.
  intros Ht. unfold exec.
  destruct (iconPresent_cases themeToggle w) as [(_ & icon & Hi)|(_ & Hi)].
  - rewrite (themeSetup_run _ _ _ Ht Hi). cbn [fst].
    unfold dataTheme at 1. cbn [body].
    rewrite attribute_updateAt by done.
    apply (dataTheme_setAttribute _ w).
  - rewrite (themeSetup_fault _ _ Ht Hi). cbn [fst].
    apply dataTheme_setAttribute.
Qed.

(** C4 (amended). On a page with the theme switch, setup displays: the
    saved preference itself whenever a non-empty one is stored, whatever the
    system signal says; otherwise (nothing stored, or the empty string)
    [dark] if the system signal is true and [light] if it is false. *)
Theorem themeSetup_resolves (w : World) :
  present "themeToggle" w = true →
  let w' := exec ScriptJs.themeSetup w in
  (∀ s, storedTheme w = Some s → s ≠ "" → dataTheme w' = Some s) ∧
  (storedTheme w = None ∨ storedTheme w = Some "" →
   prefersDark w = true → dataTheme w' = Some "dark") ∧
  (storedTheme w = None ∨ storedTheme w = Some "" →
   prefersDark w = false → dataTheme w' = Some "light").
Proof.
  intros (t & Ht)%present_true w'. unfold w'.
  rewrite (themeSetup_dataTheme _ _ Ht).
  unfold ScriptJs.currentTheme, jsOr. split_and!.
  - intros s -> Hs. by rewrite bool_decide_eq_false_2.
  - by intros [-> | ->] ->.
  - by intros [-> | ->] ->.
Qed.

Lemma themeSetup_resolves_witness :
  present "themeToggle" savedLightSystemDark = true ∧
  dataTheme (exec ScriptJs.themeSetup savedLightSystemDark) = Some "light".
Proof.
  split; [reflexivity|].
  destruct (themeSetup_resolves savedLightSystemDark eq_refl) as (Hsaved & _ & _).
  apply (Hsaved "light"); [reflexivity | discriminate].
Defined.

(** C4, as stated, fails: with [light] saved and a system that prefers
    dark, one source indicates dark, yet the displayed theme is not the
    [dark] that "dark if either source indicates dark" asks for. *)
Lemma themeSetup_not_either_dark :
  present "themeToggle" savedLightSystemDark = true ∧
  storedTheme savedLightSystemDark = Some "light" ∧
  prefersDark savedLightSystemDark = true ∧
  resolvedBySpec (storedTheme savedLightSystemDark)
                 (prefersDark savedLightSystemDark) = "dark" ∧
  dataTheme (exec ScriptJs.themeSetup savedLightSystemDark) = Some "light" ∧
  dataTheme (exec ScriptJs.themeSetup savedLightSystemDark) ≠
    Some (resolvedBySpec (storedTheme savedLightSystemDark)
                         (prefersDark savedLightSystemDark)).
Proof. by vm_compute. Qed.

Lemma currentTheme_cases w :
  savedThemeValid w = true →
  ScriptJs.currentTheme (storedTheme w) (prefersDark w) = "light" ∨
  ScriptJs.currentTheme (storedTheme w) (prefersDark w) = "dark".
Proof.
  unfold savedThemeValid, ScriptJs.currentTheme, jsOr.
  destruct (storedTheme w) as [s|]; [|destruct (prefersDark w); auto].
  intros Hs%bool_decide_eq_true.
  case_bool_decide; [destruct (prefersDark w); auto|].
  rewrite !elem_of_cons, elem_of_nil in Hs.
  destruct Hs as [?|[?|[?|[]]]]; [done | left | right]; congruence.
Qed.

(** C7 (amended). On a page with the theme switch, after setup and any
    number [n] of runs of the toggle handler, the displayed theme is
    [light] or [dark], provided at least one toggle has run or the value
    stored under [theme] at load time was absent, empty, [light] or
    [dark]. *)
Theorem theme_light_or_dark (w : World) (themeToggle : Path) (n : nat) :
  findFirst (hasId "themeToggle") (body w) = Some themeToggle →
  0 < n ∨ savedThemeValid w = true →
  dataTheme (afterToggles n themeToggle w) = Some "light" ∨
  dataTheme (afterToggles n themeToggle w) = Some "dark".
Proof.
  intros Ht Hn. unfold afterToggles. destruct n as [|n].
  - destruct Hn as [Hn|Hv]; [lia|]. simpl.
    rewrite (themeSetup_dataTheme _ _ Ht).
    destruct (currentTheme_cases w Hv) as [-> | ->]; auto.
  - simpl. rewrite themeToggleClick_dataTheme.
    match goal with
    | |- context [ScriptJs.newTheme ?o] =>
        destruct (newTheme_cases o) as [-> | ->]; auto
    end.
Qed.

Lemma theme_light_or_dark_witness :
  findFirst (hasId "themeToggle") (body savedBlue) = Some [1] ∧
  (dataTheme (afterToggles 3 [1] savedBlue) = Some "light" ∨
   dataTheme (afterToggles 3 [1] savedBlue) = Some "dark").
Proof.
  split; [reflexivity|].
  apply (theme_light_or_dark savedBlue [1] 3); [reflexivity | left; lia].
Defined.

(** C7, as stated, fails: the saved value is displayed as it is, so a page
    loaded with [blue] under [theme] shows [blue] until the first toggle. *)
Lemma saved_blue_is_displayed :
  findFirst (hasId "themeToggle") (body savedBlue) = Some [1] ∧
  dataTheme (afterToggles 0 [1] savedBlue) = Some "blue" ∧
  ¬ (dataTheme (afterToggles 0 [1] savedBlue) = Some "light" ∨
     dataTheme (afterToggles 0 [1] savedBlue) = Some "dark").
Proof.
  split; [reflexivity|]. split; [reflexivity|].
  intros [H|H]; vm_compute in H; discriminate.
Qed.

(** C10. The guard of the theme block tests the switch only.  On every
    page where the switch exists but holds no icon element, setup throws at
    the icon's [className] and never installs the click listener; the
    toggle handler has the same unguarded lookup and throws on every state
    in which the switch holds no icon.  The block is a silent no-op only
    when the switch itself is missing. *)
Theorem icon_lookup_unguarded (w : World) (themeToggle : Path) :
  (findFirst (hasId "themeToggle") (body w) = Some themeToggle →
   iconPresent themeToggle w = false →
   outcome ScriptJs.themeSetup w = Thrown TypeError ∧
   listeners (exec ScriptJs.themeSetup w) = listeners w) ∧
  (iconPresent themeToggle w = false →
   outcome (ScriptJs.themeToggleClick themeToggle) w = Thrown TypeError) ∧
  (findFirst (hasId "themeToggle") (body w) = None →
   ScriptJs.themeSetup w = (w, Normal tt)).
Proof.
  split_and!.
  - intros Ht Hi.
    destruct (iconPresent_cases themeToggle w) as [(? & _)|(_ & Hnone)];
      [congruence|].
    unfold outcome, exec. by rewrite (themeSetup_fault _ _ Ht Hnone).
  - intros Hi.
    destruct (iconPresent_cases themeToggle w) as [(? & _)|(_ & Hnone)];
      [congruence|].
    unfold outcome. by rewrite (themeToggleClick_fault _ _ Hnone).
  - apply themeSetup_absent.
Qed.

Lemma icon_lookup_unguarded_witness :
  (findFirst (hasId "themeToggle") (body iconlessWorld) = Some [1] ∧
   iconPresent [1] iconlessWorld = false ∧
   outcome ScriptJs.themeSetup iconlessWorld = Thrown TypeError ∧
   outcome (ScriptJs.themeToggleClick [1]) iconlessWorld = Thrown TypeError) ∧
  (findFirst (hasId "themeToggle") (body toggleFreeWorld) = None ∧
   ScriptJs.themeSetup toggleFreeWorld = (toggleFreeWorld, Normal tt)).
Proof.
  split.
  - destruct (icon_lookup_unguarded iconlessWorld [1]) as (Hsetup & Hclick & _).
    split; [reflexivity|]. split; [reflexivity|].
    split; [apply Hsetup; reflexivity | apply Hclick; reflexivity].
  - destruct (icon_lookup_unguarded toggleFreeWorld []) as (_ & _ & Habsent).
    split; [reflexivity | apply Habsent; reflexivity].
Defined.

(** ** Frames: what a piece of script leaves alone *)

#[export] Instance unchanged_preorder {B} (g : World → B) : PreOrder (unchanged g).
Proof.
  split; [by intros w | intros w1 w2 w3 H12 H23]. unfold unchanged in *. congruence.
Qed.

Section Frame.
Context (R : relation World) `{!PreOrder R}.

Lemma preserves_ret {A} (a : A) : preserves R (mret a).
Proof. intros w. reflexivity. Qed.

Lemma preserves_throw {A} err : preserves R (@throw A err).
Proof. intros w. reflexivity. Qed.

Lemma preserves_gets {A} (f : World → A) : preserves R (gets f).
Proof. intros w. reflexivity. Qed.

Lemma preserves_modify f : (∀ w, R w (f w)) → preserves R (modify f).
Proof. intros Hf w. apply Hf. Qed.

Lemma preserves_bind {A B} (m : JS A) (k : A → JS B) :
  preserves R m → (∀ a, preserves R (k a)) → preserves R (m ≫= k).
Proof.
  intros Hm Hk w. specialize (Hm w). unfold exec, mbind, JS_bind in *.
  destruct (m w) as [w' [a|err]]; simpl in *; [|done].
  etrans; [exact Hm | apply Hk].
Qed.

Lemma preserves_deref {A} r (m : Path → JS A) :
  (∀ p, preserves R (m p)) → preserves R (deref r m).
Proof. intros Hm. destruct r; [apply Hm | apply preserves_throw]. Qed.

Lemma preserves_if {A} (b : bool) (m1 m2 : JS A) :
  preserves R m1 → preserves R m2 → preserves R (if b then m1 else m2).
Proof. by destruct b. Qed.
End Frame.

(** Splits a script into its primitive steps; what remains are the
    [modify] steps, one goal [R w (f w)] for each. *)
Ltac frame_step :=
  lazymatch goal with
  | |- ∀ _, preserves _ _ => intros ?
  | |- preserves _ (mbind _ _) =>
      apply preserves_bind; [typeclasses eauto | | intros ?]
  | |- preserves _ (gets _) => apply preserves_gets; typeclasses eauto
  | |- preserves _ (mret _) => apply preserves_ret; typeclasses eauto
  | |- preserves _ (throw _) => apply preserves_throw; typeclasses eauto
  | |- preserves _ (deref _ _) =>
      apply preserves_deref; [typeclasses eauto | intros ?]
  | |- preserves _ (modify _) => apply preserves_modify; intros ?
  | |- preserves _ (if _ then _ else _) => apply preserves_if
  | |- preserves _ (match ?x with Some _ => _ | None => _ end) => destruct x
  end.

Ltac frame_steps := repeat frame_step.

Ltac js_primitives :=
  unfold getElementById, querySelector, querySelectorIn, closest,
    setInnerText, setDisplay, setClassName, setAttribute, getAttribute,
    dataset, getItem, setItem, matchMediaPrefersDark.

Lemma exec_modify_bind {A} f (k : unit → JS A) w :
  exec (modify f ≫= k) w = exec (k tt) (f w).
Proof. reflexivity. Qed.

(** ** The click delegate *)

(** Every call of [openModal], completed or not, adds its arguments to the
    call log, once. *)
Lemma openModal_logs_call w summary name score time :
  openModalCalls (exec (ScriptJs.openModal summary name score time) w) =
    (openModalCalls w ++ [(summary, name, score, time)])%list.
Proof.
  unfold ScriptJs.openModal. rewrite exec_modify_bind.
  match goal with
  | |- openModalCalls (exec ?m ?w0) = _ =>
      assert (preserves (unchanged openModalCalls) m) as Hm
  end.
  { js_primitives. frame_steps; reflexivity. }
  by rewrite (Hm _).
Qed.

Lemma prefix_is_take {A} (r l : list A) :
  r `prefix_of` l → r = take (length r) l.
Proof. intros [k ->]. by rewrite take_app_length. Qed.

Lemma elem_of_ancestorsOrSelf q target :
  q `prefix_of` target → q ∈ ancestorsOrSelf target.
Proof.
  intros Hq. unfold ancestorsOrSelf. apply list_elem_of_fmap.
  exists (length q). split; [by apply prefix_is_take|].
  apply elem_of_reverse, elem_of_seq.
  apply prefix_length in Hq. lia.
Qed.

Lemma elem_of_belowOnTheWay card rest q :
  card `prefix_of` q → q `prefix_of` (card ++ rest)%list → q ≠ card →
  q ∈ belowOnTheWay card rest.
Proof.
  intros [r ->] Hq Hne. apply prefix_app_inv in Hq.
  unfold belowOnTheWay. apply list_elem_of_fmap.
  exists (length r). split; [by rewrite <-prefix_is_take|].
  apply elem_of_seq. apply prefix_length in Hq.
  destruct r; [by rewrite app_nil_r in Hne | simpl in *; lia].
Qed.

Lemma cardAt_false w q e :
  cardAt w q = false → elemAt (body w) q = Some e →
  hasClass "action-card-modern" e = false.
Proof. unfold cardAt. intros H He. by rewrite He in H. Qed.

(** With no card on the way up the delegate does nothing at all. *)
Lemma bodyClick_ignores w target :
  noCardAbove w target = true →
  ScriptJs.bodyClick target w = (w, Normal tt).
Proof.
  intros Hno. unfold ScriptJs.bodyClick. js_unfold. js_step.
  rewrite closestAt_None; [done|].
  intros q e Hq He. eapply cardAt_false; [|done].
  unfold noCardAbove in Hno. rewrite forallb_forall in Hno.
  apply negb_true_iff, Hno, list_elem_of_In. by apply elem_of_ancestorsOrSelf.
Qed.

(** The delegate hands the data of the nearest card to [openModal]. *)
Lemma bodyClick_nearest w card rest :
  onPage w (card ++ rest) = true →
  cardAt w card = true →
  nearestCard w card rest = true →
  ScriptJs.bodyClick (card ++ rest) w =
    ScriptJs.openModal (datasetAt w card "summary") (datasetAt w card "user")
                       (datasetAt w card "score") (datasetAt w card "time") w.
Proof.
  intros Hon Hcard Hnear. unfold ScriptJs.bodyClick. js_unfold. js_step.
  unfold cardAt in Hcard.
  destruct (elemAt (body w) card) as [e|] eqn:He; [|done].
  rewrite (closestAt_nearest _ _ _ card e); try done.
  - unfold onPage in Hon. by destruct (nodeAt _ _).
  - by apply prefix_app_r.
  - intros q e' Hq1 Hq2 Hne He'. eapply cardAt_false; [|done].
    unfold nearestCard in Hnear. rewrite forallb_forall in Hnear.
    apply negb_true_iff, Hnear, list_elem_of_In.
    by apply elem_of_belowOnTheWay.
Qed.

(** C5 (amended). Let the nearest action card around the click target
    (the target itself counts) carry summary, user, score and time, for
    instance "Did X", "Alice", "5", "2024-01-01".  Then the delegate, run
    for that click, calls [openModal] with exactly these four values,
    exactly once, however deep inside the card the target lies. *)
Theorem bodyClick_opens_nearest_card (w : World) (card rest : Path)
    (summary user score time : string) :
  onPage w (card ++ rest) = true →
  cardAt w card = true →
  nearestCard w card rest = true →
  datasetAt w card "summary" = JSString summary →
  datasetAt w card "user" = JSString user →
  datasetAt w card "score" = JSString score →
  datasetAt w card "time" = JSString time →
  opensOnceWith w (card ++ rest)
    (JSString summary, JSString user, JSString score, JSString time).
Proof.
  intros Hon Hcard Hnear Hs Hu Hsc Ht. unfold opensOnceWith, exec.
  rewrite (bodyClick_nearest _ _ _ Hon Hcard Hnear), Hs, Hu, Hsc, Ht.
  apply openModal_logs_call.
Qed.

Lemma bodyClick_opens_nearest_card_witness :
  opensOnceWith sampleWorld [2; 0; 0]
    (JSString "Did X", JSString "Alice", JSString "5", JSString "2024-01-01").
Proof.
  apply (bodyClick_opens_nearest_card sampleWorld [2] [0; 0]
           "Did X" "Alice" "5" "2024-01-01"); reflexivity.
Defined.

(** C5, as stated, fails: a target inside a card with the example data,
    at whatever depth, is not enough.  Here the target also lies inside an
    inner card, and it is the inner card's data that reaches [openModal]. *)
Lemma bodyClick_inner_card_wins :
  [1] `prefix_of` [1; 0; 0] ∧
  onPage nestedCardsWorld [1; 0; 0] = true ∧
  cardAt nestedCardsWorld [1] = true ∧
  datasetAt nestedCardsWorld [1] "summary" = JSString "Did X" ∧
  datasetAt nestedCardsWorld [1] "user" = JSString "Alice" ∧
  datasetAt nestedCardsWorld [1] "score" = JSString "5" ∧
  datasetAt nestedCardsWorld [1] "time" = JSString "2024-01-01" ∧
  opensOnceWith nestedCardsWorld [1; 0; 0]
    (JSString "Did Y", JSString "Bob", JSString "7", JSString "2024-02-02") ∧
  ¬ opensOnceWith nestedCardsWorld [1; 0; 0]
      (JSString "Did X", JSString "Alice", JSString "5", JSString "2024-01-01").
Proof.
  split; [by exists [0; 0]|]. split_and!; try reflexivity.
  intros H. vm_compute in H. discriminate.
Qed.

(** C6. A click whose target has no action card among its ancestors, the
    target included, never reaches [openModal]: the delegate completes and
    leaves the page, and with it the log of [openModal] calls, as it was. *)
Theorem bodyClick_ignores_non_card (w : World) (target : Path) :
  noCardAbove w target = true →
  outcome (ScriptJs.bodyClick target) w = Normal tt ∧
  exec (ScriptJs.bodyClick target) w = w ∧
  openModalCalls (exec (ScriptJs.bodyClick target) w) = openModalCalls w.
Proof.
  intros Hno. unfold outcome, exec. by rewrite (bodyClick_ignores _ _ Hno).
Qed.

Lemma bodyClick_ignores_non_card_witness :
  noCardAbove sampleWorld [3; 0] = true ∧
  openModalCalls (exec (ScriptJs.bodyClick [3; 0]) sampleWorld) = [].
Proof.
  split; [reflexivity|].
  apply (bodyClick_ignores_non_card sampleWorld [3; 0]). reflexivity.
Defined.

(** ** The two controllers side by side *)

Lemma dataTheme_updateAt f p w :
  (∀ e, attributes (f e) = attributes e) →
  dataTheme (withBody (updateAt f p) w) = dataTheme w.
Proof. intros Hf. unfold dataTheme. cbn [body withBody]. by apply attribute_updateAt. Qed.

Lemma innerTextOf_updateAt f p id w :
  (∀ e, hasId id (f e) = hasId id e) →
  (∀ e, innerText (f e) = innerText e) →
  innerTextOf id (withBody (updateAt f p) w) = innerTextOf id w.
Proof.
  intros Hid Hf. unfold innerTextOf. cbn [body withBody].
  rewrite findFirst_updateAt by done.
  destruct (findFirst (hasId id) (body w)); [|done].
  cbn [mbind option_bind]. by apply field_updateAt.
Qed.

Lemma displayOf_updateAt f p id w :
  (∀ e, hasId id (f e) = hasId id e) →
  (∀ e, display (f e) = display e) →
  displayOf id (withBody (updateAt f p) w) = displayOf id w.
Proof.
  intros Hid Hf. unfold displayOf. cbn [body withBody].
  rewrite findFirst_updateAt by done.
  destruct (findFirst (hasId id) (body w)); [|done].
  cbn [mbind option_bind]. by apply field_updateAt.
Qed.

(** Writing a text into an element, the body itself included, leaves the
    attributes of the body alone. *)
Lemma dataTheme_replaceAt v p w :
  dataTheme (withBody (replaceAt (withText v) p) w) = dataTheme w.
Proof.
  unfold dataTheme, documentBody. cbn [body withBody].
  rewrite elemAt_replaceAt. case_decide as Hp.
  - subst p. by destruct (elemAt (body w) []).
  - by destruct p.
Qed.

(** [openModal] writes texts and one [display], never an attribute and
    never the store. *)
Lemma openModal_keeps_theme summary name score time :
  preserves (unchanged dataTheme) (ScriptJs.openModal summary name score time) ∧
  preserves (unchanged storedTheme) (ScriptJs.openModal summary name score time).
Proof.
  unfold ScriptJs.openModal. js_primitives.
  split; frame_steps; try reflexivity;
    first [ apply dataTheme_replaceAt | by apply dataTheme_updateAt ].
Qed.

(** The toggle handler writes one attribute, one class list and the store,
    never a text or a [display]. *)
Lemma themeToggleClick_keeps_modal themeToggle id :
  preserves (unchanged (innerTextOf id)) (ScriptJs.themeToggleClick themeToggle) ∧
  preserves (unchanged (displayOf id)) (ScriptJs.themeToggleClick themeToggle).
Proof.
  unfold ScriptJs.themeToggleClick. js_primitives.
  split; frame_steps; try reflexivity;
    first [ by apply innerTextOf_updateAt | by apply displayOf_updateAt ].
Qed.

(** C9. The two controllers do not interfere.  A run of [openModal],
    completed or not, leaves the displayed theme and the value stored under
    [theme] as they were.  A run of the toggle handler, completed or not,
    leaves the text and the [display] of every element with an id as they
    were: the five text slots of the modal and the modal's visibility among
    them. *)
Theorem controllers_do_not_interfere (w : World)
    (summary name score time : JSValue) (themeToggle : Path) :
  (dataTheme (exec (ScriptJs.openModal summary name score time) w) = dataTheme w ∧
   storedTheme (exec (ScriptJs.openModal summary name score time) w) = storedTheme w) ∧
  (∀ id,
     innerTextOf id (exec (ScriptJs.themeToggleClick themeToggle) w) = innerTextOf id w ∧
     displayOf id (exec (ScriptJs.themeToggleClick themeToggle) w) = displayOf id w).
Proof.
  split.
  - destruct (openModal_keeps_theme summary name score time) as [Hd Hs].
    split; [apply Hd | apply Hs].
  - intros id. destruct (themeToggleClick_keeps_modal themeToggle id) as [Ht Hd].
    split; [apply Ht | apply Hd].
Qed.

(** ** The two copies *)

(** The top level of the shorter copy installs no listener on the body and
    appends no style sheet. *)
Lemma part000_main_keeps :
  preserves (unchanged (λ w, bodyClickSet (listeners w))) Part000.main ∧
  preserves (unchanged headStyles) Part000.main.
Proof.
  unfold Part000.main, Part000.themeSetup, setCloseOnclick, setWindowOnclick,
    addKeydownListener, addThemeToggleClick.
  js_primitives. split; frame_steps; reflexivity.
Qed.

Lemma runListener_keeps {B} (g : World → B) h w :
  (∀ f w, g (withConsoleErrors f w) = g w) →
  preserves (unchanged g) h →
  g (runListener h w) = g w.
Proof.
  intros Hg Hh. specialize (Hh w). unfold unchanged, exec, runListener in *.
  destruct (h w) as [w' [[]|err]]; simpl in *; [done|]. by rewrite Hg.
Qed.

(** C8 (amended). Whatever both files define they define alike: the two
    embeddings of [openModal], of the three close handlers, of theme setup
    and of the toggle handler are equal.  The files differ in this only:
    the top level of script.js is the top level of the shorter copy
    followed by the registration of the click delegate on the body and the
    injection of the card style sheet, neither of which the shorter copy
    has; a page loaded from the shorter copy has no body listener and no
    added style sheet. *)
Theorem copies_agree_on_shared_code :
  Part000.openModal = ScriptJs.openModal ∧
  Part000.closeOnclick = ScriptJs.closeOnclick ∧
  Part000.windowOnclick = ScriptJs.windowOnclick ∧
  Part000.keydownListener = ScriptJs.keydownListener ∧
  Part000.themeSetup = ScriptJs.themeSetup ∧
  Part000.themeToggleClick = ScriptJs.themeToggleClick ∧
  (∀ w, ScriptJs.main w =
        (Part000.main ;; addBodyClick ;; appendStyle ScriptJs.style) w) ∧
  (∀ w, bodyClickSet (listeners (load Part000.main w)) = false ∧
        headStyles (load Part000.main w) = headStyles w).
Proof.
  split_and!; try reflexivity.
  - intros w. unfold ScriptJs.main, Part000.main.
    change Part000.themeSetup with ScriptJs.themeSetup.
    unfold setCloseOnclick, querySelector, mbind, JS_bind, gets. js_step.
    destruct (findFirst (hasClass "close") (body w)) as [close|]; [|done].
    unfold setWindowOnclick, addKeydownListener, modify. js_step.
    by destruct (ScriptJs.themeSetup _) as [w' [[]|err]].
  - intros w. destruct part000_main_keeps as [Hb Hs]. unfold load. split.
    + by rewrite (runListener_keeps (λ w, bodyClickSet (listeners w))).
    + by rewrite (runListener_keeps headStyles).
Qed.

(** C8, as stated, fails: script.js has behaviour the shorter copy lacks.
    On the sample page a click inside the action card shows the modal when
    the page was loaded from script.js and leaves it hidden when it was
    loaded from the shorter copy; and only script.js adds a style sheet. *)
Lemma card_click_tells_copies_apart :
  displayOf "modal"
    (dispatchClick scriptJsHandlers [2; 0; 0] (load ScriptJs.main sampleWorld))
    = Some "block" ∧
  displayOf "modal"
    (dispatchClick part000Handlers [2; 0; 0] (load Part000.main sampleWorld))
    = Some "none" ∧
  headStyles (load ScriptJs.main sampleWorld) = [ScriptJs.style] ∧
  headStyles (load Part000.main sampleWorld) = [].
Proof. by vm_compute. Qed.

(** ** The event loop *)

Ltac script_handlers :=
  unfold scriptJsHandlers, onCloseClick, onWindowClick, onKeydown,
    onThemeToggleClick, onBodyClick, ScriptJs.closeOnclick,
    ScriptJs.windowOnclick, ScriptJs.keydownListener,
    ScriptJs.themeToggleClick, ScriptJs.bodyClick, ScriptJs.openModal;
  js_primitives.

(** The handlers install nothing. *)
Lemma scriptJs_keeps_listeners : keptByHandlers scriptJsHandlers listeners.
Proof.
  unfold keptByHandlers. script_handlers.
  split_and!; [done | ..]; frame_steps; reflexivity.
Qed.

(** The handlers that write no text rename nothing and remove nothing: a
    lookup by id gives the same element before and after. *)
Lemma quiet_handlers_keep_id id :
  preserves (unchanged (λ w, findFirst (hasId id) (body w))) ScriptJs.closeOnclick ∧
  (∀ t, preserves (unchanged (λ w, findFirst (hasId id) (body w)))
          (ScriptJs.windowOnclick t)) ∧
  (∀ k, preserves (unchanged (λ w, findFirst (hasId id) (body w)))
          (ScriptJs.keydownListener k)) ∧
  (∀ t, preserves (unchanged (λ w, findFirst (hasId id) (body w)))
          (ScriptJs.themeToggleClick t)).
Proof.
  unfold ScriptJs.closeOnclick, ScriptJs.windowOnclick, ScriptJs.keydownListener,
    ScriptJs.themeToggleClick.
  js_primitives. split_and!; frame_steps;
    first [ reflexivity | by apply findFirst_updateAt ].
Qed.

#[export] Instance keepsModal_preorder : PreOrder keepsModal.
Proof.
  split; [by intros w | intros w1 w2 w3 H12 H23 Hwf].
  rewrite H23, H12; [done | done |].
  by rewrite (modalWellFormed_ext w1 w2) by auto.
Qed.

Lemma modalPaths_updateAt f p w :
  (∀ e, elemId (f e) = elemId e) →
  modalPaths (withBody (updateAt f p) w) = modalPaths w.
Proof.
  intros Hf. unfold modalPaths. cbn [body withBody].
  apply list_fmap_ext. intros _ id _.
  apply findFirst_updateAt. intros e. unfold hasId. by rewrite Hf.
Qed.

(** On a well-formed page no handler moves or removes a slot or the modal:
    the only handler that writes texts, the card delegate, writes them into
    the slots, and nothing of the six lies inside a slot. *)
Lemma scriptJs_keepsModal : heldByHandlers scriptJsHandlers keepsModal.
Proof.
  unfold heldByHandlers, scriptJsHandlers, onCloseClick, onWindowClick,
    onKeydown, onThemeToggleClick, onBodyClick.
  split_and!.
  - by intros f w Hwf.
  - unfold ScriptJs.closeOnclick. js_primitives. frame_steps.
    intros _. by apply modalPaths_updateAt.
  - unfold ScriptJs.windowOnclick. js_primitives. frame_steps.
    intros _. by apply modalPaths_updateAt.
  - unfold ScriptJs.keydownListener. js_primitives. frame_steps.
    intros _. by apply modalPaths_updateAt.
  - unfold ScriptJs.themeToggleClick. js_primitives. frame_steps;
      intros _; first [ reflexivity | by apply modalPaths_updateAt ].
  - unfold ScriptJs.bodyClick. js_primitives. frame_steps.
    intros w Hwf. by apply openModal_effect.
Qed.

Lemma runListener_rel (R : relation World) `{!PreOrder R} h w :
  (∀ f w, R w (withConsoleErrors f w)) →
  preserves R h →
  R w (runListener h w).
Proof.
  intros Hc Hh. specialize (Hh w). unfold exec, runListener in *.
  destruct (h w) as [w' [[]|err]]; simpl in *; [done|].
  etrans; [exact Hh | apply Hc].
Qed.

Section Held.
Context (H : Handlers) (R : relation World) `{!PreOrder R}
        (Hheld : heldByHandlers H R).

Lemma clickAt_held target q w : R w (clickAt H target q w).
Proof.
  destruct Hheld as (Hc & Hclose & _ & _ & Htoggle & Hbody).
  unfold clickAt.
  set (w1 := if bool_decide (closeOnclickOn (listeners w) = Some q)
             then runListener (onCloseClick H) w else w).
  assert (R w w1) as H1
    by (unfold w1; case_bool_decide; [by apply runListener_rel | reflexivity]).
  clearbody w1.
  set (w2 := if bool_decide (themeToggleClickOn (listeners w1) = Some q)
             then runListener (onThemeToggleClick H q) w1 else w1).
  assert (R w1 w2) as H2
    by (unfold w2; case_bool_decide; [by apply runListener_rel | reflexivity]).
  clearbody w2.
  etrans; [exact H1|]. etrans; [exact H2|].
  destruct (_ && _); [by apply runListener_rel | reflexivity].
Qed.

Lemma bubble_held target qs w :
  R w (foldl (λ w q, clickAt H target q w) w qs).
Proof.
  revert w. induction qs as [|q qs IH]; intros w; simpl; [reflexivity|].
  etrans; [apply clickAt_held | apply IH].
Qed.
End Held.

Section Kept.
Context {B : Type} (H : Handlers) (g : World → B) (Hkept : keptByHandlers H g).

Lemma clickAt_kept target q w : g (clickAt H target q w) = g w.
Proof.
  destruct Hkept as (Hc & Hclose & _ & _ & Htoggle & Hbody).
  unfold clickAt.
  repeat match goal with
         | |- context [if ?b then _ else _] => destruct b
         end;
    repeat (rewrite (runListener_keeps g) by done); done.
Qed.

Lemma bubble_kept target qs w :
  g (foldl (λ w q, clickAt H target q w) w qs) = g w.
Proof.
  revert w. induction qs as [|q qs IH]; intros w; simpl; [done|].
  by rewrite IH, clickAt_kept.
Qed.
End Kept.

(** Pressing Escape on a page where the keydown listener is installed and
    the modal exists hides the modal. *)
Lemma dispatch_Escape_hides w modal :
  keydownListenerSet (listeners w) = true →
  findFirst (hasId "modal") (body w) = Some modal →
  displayOf "modal" (dispatchKeydown scriptJsHandlers "Escape" w) = Some "none".
Proof.
  intros Hset Hm. unfold dispatchKeydown, runListener. rewrite Hset.
  cbn [onKeydown scriptJsHandlers].
  rewrite (keydownListener_Escape_hides _ _ Hm).
  by apply setDisplay_modal_reads.
Qed.

(** While a click bubbles on a well-formed page, the modal stays where it
    is and the handlers stay installed. *)
Lemma bubble_keeps_modal w target modal qs :
  modalWellFormed w = true →
  findFirst (hasId "modal") (body w) = Some modal →
  let w' := foldl (λ w q, clickAt scriptJsHandlers target q w) w qs in
  listeners w' = listeners w ∧
  findFirst (hasId "modal") (body w') = Some modal.
Proof.
  intros Hwf Hm w'. split.
  - apply (bubble_kept _ _ scriptJs_keeps_listeners).
  - rewrite <-Hm. apply modalPaths_modal.
    by apply (bubble_held _ _ scriptJs_keepsModal).
Qed.

(** X19. A click on the modal itself, the backdrop, hides the modal on a
    well-formed page where the window's handler is installed, whatever
    other handlers the click passes on its way up (the card delegate among
    them, should the modal sit inside a card): the window's handler runs
    last, and on a well-formed page the delegate's [openModal] leaves the
    modal in the document. *)
Lemma dispatch_backdrop_hides w modal :
  windowOnclickSet (listeners w) = true →
  modalWellFormed w = true →
  findFirst (hasId "modal") (body w) = Some modal →
  displayOf "modal" (dispatchClick scriptJsHandlers modal w) = Some "none".
Proof.
  intros Hset Hwf Hm. unfold dispatchClick.
  destruct (bubble_keeps_modal w modal modal (ancestorsOrSelf modal) Hwf Hm)
    as [Hl Hm'].
  rewrite Hl, Hset. unfold runListener. cbn [onWindowClick scriptJsHandlers].
  rewrite (windowOnclick_backdrop_hides _ _ Hm').
  by apply setDisplay_modal_reads.
Qed.

(** *** A click on the close control *)

#[export] Instance stillNoCard_preorder target : PreOrder (stillNoCard target).
Proof.
  split; [intros w Hw; exact Hw | intros w1 w2 w3 H12 H23 H1; exact (H23 (H12 H1))].
Qed.

Lemma cardAt_updateAt f p w q :
  (∀ e, hasClass "action-card-modern" (f e) = true →
        hasClass "action-card-modern" e = true) →
  cardAt w q = false → cardAt (withBody (updateAt f p) w) q = false.
Proof.
  intros Hf. unfold cardAt. cbn [body withBody]. rewrite elemAt_updateAt.
  case_decide; [|done]. destruct (elemAt (body w) q) as [e|]; [|done].
  simpl. intros He. apply not_true_is_false. intros Hfe%Hf. congruence.
Qed.

Lemma stillNoCard_updateAt f p target w :
  (∀ e, hasClass "action-card-modern" (f e) = true →
        hasClass "action-card-modern" e = true) →
  stillNoCard target w (withBody (updateAt f p) w).
Proof.
  intros Hf. unfold stillNoCard, noCardAbove. rewrite !forallb_forall.
  intros Hno q Hq. apply negb_true_iff, cardAt_updateAt; [done|].
  by apply negb_true_iff, Hno.
Qed.

Lemma iconClassName_no_card theme e :
  hasClass "action-card-modern"
    (withClassList (ScriptJs.iconClassName theme) e) = false.
Proof. unfold ScriptJs.iconClassName. by case_bool_decide. Qed.

Lemma closeOnclick_stillNoCard target :
  preserves (stillNoCard target) ScriptJs.closeOnclick.
Proof.
  unfold ScriptJs.closeOnclick. js_primitives. frame_steps.
  by apply stillNoCard_updateAt.
Qed.

Lemma themeToggleClick_stillNoCard target themeToggle :
  preserves (stillNoCard target) (ScriptJs.themeToggleClick themeToggle).
Proof.
  unfold ScriptJs.themeToggleClick. js_primitives. frame_steps.
  - by apply stillNoCard_updateAt.
  - apply stillNoCard_updateAt. intros e. by rewrite iconClassName_no_card.
  - by intros Hno.
Qed.

Lemma runListener_closeOnclick w modal :
  findFirst (hasId "modal") (body w) = Some modal →
  displayOf "modal" (runListener ScriptJs.closeOnclick w) = Some "none".
Proof.
  intros Hm. unfold runListener. rewrite (closeOnclick_hides _ _ Hm).
  by apply setDisplay_modal_reads.
Qed.

Lemma runListener_windowOnclick_hidden w target :
  displayOf "modal" w = Some "none" →
  displayOf "modal" (runListener (ScriptJs.windowOnclick target) w) = Some "none".
Proof.
  intros Hd. unfold runListener, ScriptJs.windowOnclick. js_unfold. js_step.
  destruct (findFirst (hasId "modal") (body w)) as [modal|] eqn:Hm.
  - case_bool_decide; [|done]. js_step. by apply setDisplay_modal_reads.
  - by rewrite bool_decide_eq_false_2.
Qed.

(** One element of the bubbling path, for a click that started on an
    element with no card above it: still no card above, and the modal is
    hidden afterwards if this is the close control or if it was hidden
    before. *)
Lemma clickAt_close w target q modal :
  findFirst (hasId "modal") (body w) = Some modal →
  noCardAbove w target = true →
  noCardAbove (clickAt scriptJsHandlers target q w) target = true ∧
  findFirst (hasId "modal") (body (clickAt scriptJsHandlers target q w))
    = Some modal ∧
  (closeOnclickOn (listeners w) = Some q ∨ displayOf "modal" w = Some "none" →
   displayOf "modal" (clickAt scriptJsHandlers target q w) = Some "none").
Proof.
  intros Hm Hno. unfold clickAt. cbn [onCloseClick onThemeToggleClick onBodyClick
    scriptJsHandlers].
  destruct (quiet_handlers_keep_id "modal") as (Kclose & _ & _ & Ktoggle).
  set (w1 := if bool_decide (closeOnclickOn (listeners w) = Some q)
             then runListener ScriptJs.closeOnclick w else w).
  assert (findFirst (hasId "modal") (body w1) = Some modal) as Hm1.
  { unfold w1. case_bool_decide; [|done].
    by rewrite (runListener_keeps (λ w, findFirst (hasId "modal") (body w))). }
  assert (noCardAbove w1 target = true) as Hno1.
  { unfold w1. case_bool_decide; [|done].
    apply (runListener_rel (stillNoCard target));
      [by intros f w0 H0 | apply closeOnclick_stillNoCard | done]. }
  assert (closeOnclickOn (listeners w) = Some q ∨ displayOf "modal" w = Some "none" →
          displayOf "modal" w1 = Some "none") as Hd1.
  { unfold w1. case_bool_decide.
    - intros _. by eapply runListener_closeOnclick.
    - by intros [?|?]. }
  clearbody w1.
  set (w2 := if bool_decide (themeToggleClickOn (listeners w1) = Some q)
             then runListener (ScriptJs.themeToggleClick q) w1 else w1).
  assert (findFirst (hasId "modal") (body w2) = Some modal) as Hm2.
  { unfold w2. case_bool_decide; [|done].
    by rewrite (runListener_keeps (λ w, findFirst (hasId "modal") (body w))). }
  assert (noCardAbove w2 target = true) as Hno2.
  { unfold w2. case_bool_decide; [|done].
    apply (runListener_rel (stillNoCard target));
      [by intros f w0 H0 | apply themeToggleClick_stillNoCard | done]. }
  assert (displayOf "modal" w2 = displayOf "modal" w1) as Hd2.
  { unfold w2. case_bool_decide; [|done].
    apply (runListener_keeps (displayOf "modal")); [done|].
    apply themeToggleClick_keeps_modal. }
  clearbody w2.
  assert ((if bool_decide (q = documentBody) && bodyClickSet (listeners w2)
           then runListener (ScriptJs.bodyClick target) w2 else w2) = w2) as ->.
  { destruct (_ && _); [|done].
    unfold runListener. by rewrite (bodyClick_ignores _ _ Hno2). }
  split_and!; [done | done |]. intros H. rewrite Hd2. auto.
Qed.

Lemma bubble_close w target qs modal :
  findFirst (hasId "modal") (body w) = Some modal →
  noCardAbove w target = true →
  displayOf "modal" w = Some "none" →
  displayOf "modal" (foldl (λ w q, clickAt scriptJsHandlers target q w) w qs)
    = Some "none".
Proof.
  revert w. induction qs as [|q qs IH]; intros w Hm Hno Hd; simpl; [done|].
  destruct (clickAt_close w target q modal Hm Hno) as (Hno' & Hm' & Hd').
  apply IH; [done | done | auto].
Qed.

Lemma ancestorsOrSelf_head target :
  ∃ qs, ancestorsOrSelf target = target :: qs.
Proof.
  unfold ancestorsOrSelf. rewrite seq_S, reverse_app. simpl.
  rewrite firstn_all. by eexists.
Qed.

(** X20. A click on the close control hides the modal on a loaded page,
    provided the close control does not itself sit inside an action card:
    the click also bubbles to the delegate on the body, which would then
    open the modal again. *)
Lemma dispatch_close_click_hides w close modal :
  closeOnclickOn (listeners w) = Some close →
  findFirst (hasId "modal") (body w) = Some modal →
  noCardAbove w close = true →
  displayOf "modal" (dispatchClick scriptJsHandlers close w) = Some "none".
Proof.
  intros Hc Hm Hno. unfold dispatchClick.
  destruct (ancestorsOrSelf_head close) as [qs ->]. simpl.
  destruct (clickAt_close w close close modal Hm Hno) as (Hno' & Hm' & Hd').
  assert (displayOf "modal"
            (foldl (λ w q, clickAt scriptJsHandlers close q w)
                   (clickAt scriptJsHandlers close close w) qs) = Some "none") as Hd.
  { apply (bubble_close _ _ _ modal); [done | done | auto]. }
  destruct (windowOnclickSet _); [|done].
  cbn [onWindowClick scriptJsHandlers].
  by apply runListener_windowOnclick_hidden.
Qed.

(** *** Loading the page *)

Ltac run_main :=
  unfold load, runListener, ScriptJs.main, setCloseOnclick, querySelector,
    setWindowOnclick, addKeydownListener, addBodyClick, appendStyle;
  unfold mbind, JS_bind, gets, modify; js_step.

(** X17. On a page with the close control and a complete theme switch the
    top level of script.js runs to its end: all five handlers are
    installed, the close handler on the first element of class [close] and
    the toggle listener on the switch, one style sheet is appended, and
    nothing is reported on the console. *)
Lemma load_complete w close themeToggle icon :
  findFirst (hasClass "close") (body w) = Some close →
  findFirst (hasId "themeToggle") (body w) = Some themeToggle →
  selectBelow (hasTag "i") themeToggle (body w) = Some icon →
  listeners (load ScriptJs.main w) =
    mkListeners (Some close) true true (Some themeToggle) true ∧
  headStyles (load ScriptJs.main w) = (headStyles w ++ [ScriptJs.style])%list ∧
  consoleErrors (load ScriptJs.main w) = consoleErrors w.
Proof.
  intros Hc Ht Hi. run_main. rewrite Hc. js_step.
  by rewrite (themeSetup_run _ themeToggle icon).
Qed.

(** X16. On a page whose theme switch has no icon the exception of theme
    setup ends the whole top level of script.js: the three close handlers
    are installed; the toggle listener, the click delegate for the cards
    and the style sheet, which come later in the file, are not; one
    [TypeError] is reported. *)
Lemma load_without_icon w close themeToggle :
  findFirst (hasClass "close") (body w) = Some close →
  findFirst (hasId "themeToggle") (body w) = Some themeToggle →
  iconPresent themeToggle w = false →
  listeners (load ScriptJs.main w) = mkListeners (Some close) true true None false ∧
  headStyles (load ScriptJs.main w) = headStyles w ∧
  consoleErrors (load ScriptJs.main w) = (consoleErrors w ++ [TypeError])%list.
Proof.
  intros Hc Ht Hi.
  destruct (iconPresent_cases themeToggle w) as [(? & _)|(_ & Hnone)];
    [congruence|].
  run_main. rewrite Hc. js_step.
  by rewrite (themeSetup_fault _ themeToggle).
Qed.

(** X15. Without an element of class [close] the first statement of the
    top level throws: no handler at all is installed, the theme is not set
    up (the body is left as it was), and one [TypeError] is reported. *)
Lemma load_without_close w :
  findFirst (hasClass "close") (body w) = None →
  listeners (load ScriptJs.main w) = noListeners ∧
  body (load ScriptJs.main w) = body w ∧
  consoleErrors (load ScriptJs.main w) = (consoleErrors w ++ [TypeError])%list.
Proof. intros Hc. run_main. by rewrite Hc. Qed.

(** *** The close triggers on a loaded page *)

Section Dispatched.
Context (H : Handlers) (R : relation World) `{!PreOrder R}
        (Hheld : heldByHandlers H R).


End Dispatched.












(** * Further properties *)

(** ** The modal, beyond the happy path *)

Lemma forallb_false {A} (f : A → bool) (l : list A) :
  forallb f l = false → ∃ x, x ∈ l ∧ f x = false.
Proof.
  induction l as [|x l IH]; [done|]. cbn [forallb].
  destruct (f x) eqn:Hx.
  - intros (y & Hy & Hfy)%IH. exists y. split; [by right | done].
  - intros _. exists x. split; [by left | done].
Qed.

(** An element that is missing stays missing while texts are written. *)
Ltac still_missing :=
  repeat (apply findFirst_replaceAt_None; [done|]); assumption.

Ltac missing_step :=
  match goal with
  | |- context [findFirst (hasId ?id) ?T] =>
      let E := fresh "E" in
      destruct (findFirst (hasId id) T) eqn:E; js_step; [|done]
  end.

Lemma openModal_throws_unless_ready w summary name score time :
  modalReady w = false →
  outcome (ScriptJs.openModal summary name score time) w = Thrown TypeError.
Proof.
  intros (id & Hid & Hmiss)%forallb_false.
  unfold present in Hmiss.
  destruct (findFirst (hasId id) (body w)) eqn:Hnone; [done|]. clear Hmiss.
  unfold outcome, ScriptJs.openModal. js_unfold. js_step.
  repeat missing_step.
  destruct (findFirst (hasId "modal") _) eqn:E6; [|done].
  exfalso.
  repeat (apply elem_of_cons in Hid as [-> | Hid]);
    [ .. | by apply elem_of_nil in Hid ];
    match goal with
    | N : findFirst (hasId ?id) (body w) = None,
      E : findFirst (hasId ?id) ?T = Some _ |- _ =>
        assert (findFirst (hasId id) T = None) by still_missing; congruence
    end.
Qed.

(** X1. [openModal] completes on every well-formed page, and on a page
    that lacks one of the six elements it looks up it ends in a
    [TypeError]. *)
Theorem openModal_completes_or_throws (w : World)
    (summary name score time : JSValue) :
  (modalWellFormed w = true →
   outcome (ScriptJs.openModal summary name score time) w = Normal tt) ∧
  (modalReady w = false →
   outcome (ScriptJs.openModal summary name score time) w = Thrown TypeError).
Proof.
  split.
  - intros Hwf. by apply openModal_effect.
  - apply openModal_throws_unless_ready.
Qed.

Lemma openModal_completes_or_throws_witness :
  outcome (ScriptJs.openModal (JSString "Did X") (JSString "Alice")
                              (JSString "5") (JSString "2024-01-01"))
          sampleWorld = Normal tt ∧
  outcome (ScriptJs.openModal (JSString "Did X") (JSString "Alice")
                              (JSString "5") (JSString "2024-01-01"))
          modalFreeWorld = Thrown TypeError.
Proof.
  split.
  - exact (proj1 (openModal_completes_or_throws sampleWorld (JSString "Did X")
                    (JSString "Alice") (JSString "5") (JSString "2024-01-01"))
                 eq_refl).
  - exact (proj2 (openModal_completes_or_throws modalFreeWorld (JSString "Did X")
                    (JSString "Alice") (JSString "5") (JSString "2024-01-01"))
                 eq_refl).
Defined.

(** X2. The modal shows the most recent call.  After two calls of
    [openModal] in a row on a well-formed page, with any arguments, the
    second call completes, the five slots hold the texts of the second
    call, read back as the page renders them, and the modal is shown;
    both calls are on record. *)
Theorem openModal_last_call_wins (w : World)
    (summary1 name1 score1 time1 summary2 name2 score2 time2 : JSValue)
    (render : string → string → string) :
  modalWellFormed w = true →
  let w1 := exec (ScriptJs.openModal summary1 name1 score1 time1) w in
  let w' := exec (ScriptJs.openModal summary2 name2 score2 time2) w1 in
  outcome (ScriptJs.openModal summary2 name2 score2 time2) w1 = Normal tt ∧
  readInnerText render "modal-title" w' =
    Some (render "modal-title" ("Action by " ++ toString name2)) ∧
  readInnerText render "modal-details" w' =
    Some (render "modal-details" (toString summary2)) ∧
  readInnerText render "modal-user" w' =
    Some (render "modal-user" (toString name2)) ∧
  readInnerText render "modal-score" w' =
    Some (render "modal-score" ("+" ++ toString score2 ++ " pts")) ∧
  readInnerText render "modal-time" w' =
    Some (render "modal-time" ("Time: " ++ toString time2)) ∧
  displayOf "modal" w' = Some "block" ∧
  openModalCalls w' =
    (openModalCalls w ++ [(summary1, name1, score1, time1);
                          (summary2, name2, score2, time2)])%list.
Proof.
  intros Hwf w1 w'.
  destruct (openModal_effect w summary1 name1 score1 time1 Hwf) as (_ & Hp & _).
  fold w1 in Hp.
  assert (modalWellFormed w1 = true) as Hwf1
    by by rewrite (modalWellFormed_ext w w1).
  destruct (openModal_effect w1 summary2 name2 score2 time2 Hwf1)
    as (Hout & _ & Ht & Hd & Hu & Hs & Hti & Hdisp).
  fold w' in Ht, Hd, Hu, Hs, Hti, Hdisp.
  unfold readInnerText. rewrite Ht, Hd, Hu, Hs, Hti.
  split_and!; try done.
  unfold w', w1. by rewrite !openModal_logs_call, <-app_assoc.
Qed.

Lemma openModal_last_call_wins_witness :
  modalWellFormed sampleWorld = true ∧
  readInnerText (λ _, blockText) "modal-user"
    (exec (ScriptJs.openModal (JSString "Did Y") (JSString "Bob")
                              (JSString "7") (JSString "2024-02-02"))
       (exec (ScriptJs.openModal (JSString "Did X") (JSString "Alice")
                                 (JSString "5") (JSString "2024-01-01"))
             sampleWorld)) = Some "Bob".
Proof.
  split; [reflexivity|].
  destruct (openModal_last_call_wins sampleWorld
              (JSString "Did X") (JSString "Alice") (JSString "5")
              (JSString "2024-01-01")
              (JSString "Did Y") (JSString "Bob") (JSString "7")
              (JSString "2024-02-02") (λ _, blockText) eq_refl)
    as (_ & _ & _ & Huser & _).
  exact Huser.
Defined.

Lemma slotsApart_paths w :
  slotsApart w = true →
  ∃ p1 p2 p3 p4 p5,
    findFirst (hasId "modal-title") (body w) = Some p1 ∧
    findFirst (hasId "modal-details") (body w) = Some p2 ∧
    findFirst (hasId "modal-user") (body w) = Some p3 ∧
    findFirst (hasId "modal-score") (body w) = Some p4 ∧
    findFirst (hasId "modal-time") (body w) = Some p5 ∧
    apart [p1; p2; p3; p4; p5] = true.
Proof.
  unfold slotsApart, slotIds. cbn [fmap list_fmap].
  destruct (findFirst (hasId "modal-title") (body w)) as [p1|]; [|done].
  destruct (findFirst (hasId "modal-details") (body w)) as [p2|]; [|done].
  destruct (findFirst (hasId "modal-user") (body w)) as [p3|]; [|done].
  destruct (findFirst (hasId "modal-score") (body w)) as [p4|]; [|done].
  destruct (findFirst (hasId "modal-time") (body w)) as [p5|]; [|done].
  intros Ha. by exists p1, p2, p3, p4, p5.
Qed.

Section SlotsOnly.
Context (w : World) (p1 p2 p3 p4 p5 : Path).
Hypothesis H1 : findFirst (hasId "modal-title") (body w) = Some p1.
Hypothesis H2 : findFirst (hasId "modal-details") (body w) = Some p2.
Hypothesis H3 : findFirst (hasId "modal-user") (body w) = Some p3.
Hypothesis H4 : findFirst (hasId "modal-score") (body w) = Some p4.
Hypothesis H5 : findFirst (hasId "modal-time") (body w) = Some p5.
Hypothesis H6 : findFirst (hasId "modal") (body w) = None.
Hypothesis Hap : apart [p1; p2; p3; p4; p5] = true.

(** Without the modal [openModal] writes the five texts and then throws. *)
Lemma openModal_run_slots_only summary name score time :
  ScriptJs.openModal summary name score time w =
    (mkWorld (slotsFilled summary name score time p1 p2 p3 p4 p5 (body w))
       (headStyles w) (localStorage w) (prefersDark w) (listeners w)
       (openModalCalls w ++ [(summary, name, score, time)])%list
       (consoleErrors w),
     Thrown TypeError).
Proof.
  pose proof Hap as Ha. apart_facts Ha.
  unfold ScriptJs.openModal, slotsFilled. js_unfold. js_step.
  rewrite H1. js_step. step_lookup "modal-details" p2. js_step.
  step_lookup "modal-user" p3. js_step.
  step_lookup "modal-score" p4. js_step.
  step_lookup "modal-time" p5. js_step.
  match goal with
  | |- context [findFirst (hasId "modal") ?T] =>
      assert (findFirst (hasId "modal") T = None) as -> by still_missing
  end.
  reflexivity.
Qed.

Lemma slotsFilled_lookups summary name score time :
  let filled := slotsFilled summary name score time p1 p2 p3 p4 p5 (body w) in
  findFirst (hasId "modal-title") filled = Some p1 ∧
  findFirst (hasId "modal-details") filled = Some p2 ∧
  findFirst (hasId "modal-user") filled = Some p3 ∧
  findFirst (hasId "modal-score") filled = Some p4 ∧
  findFirst (hasId "modal-time") filled = Some p5.
Proof.
  pose proof Hap as Ha. apart_facts Ha.
  unfold slotsFilled. split_and!; lookup_tac.
Qed.

Lemma slotsFilled_fields summary name score time :
  let filled := slotsFilled summary name score time p1 p2 p3 p4 p5 (body w) in
  innerText <$> elemAt filled p1 = Some ("Action by " ++ toString name) ∧
  innerText <$> elemAt filled p2 = Some (toString summary) ∧
  innerText <$> elemAt filled p3 = Some (toString name) ∧
  innerText <$> elemAt filled p4 = Some ("+" ++ toString score ++ " pts") ∧
  innerText <$> elemAt filled p5 = Some ("Time: " ++ toString time).
Proof.
  pose proof Hap as Ha. apart_facts Ha.
  pose proof (findFirst_is_Some _ _ _ H1). pose proof (findFirst_is_Some _ _ _ H2).
  pose proof (findFirst_is_Some _ _ _ H3). pose proof (findFirst_is_Some _ _ _ H4).
  pose proof (findFirst_is_Some _ _ _ H5).
  unfold slotsFilled. split_and!.
  all: repeat (rewrite elemAt_replaceAt_ne by (first [ne_by_id | assumption])).
  all: rewrite elemAt_replaceAt_eq; apply innerText_withInnerText.
  all: repeat (apply elemAt_replaceAt_is_Some; [assumption|]); done.
Qed.
End SlotsOnly.

(** X3. [openModal] is not all-or-nothing.  On a page that holds the five
    text slots, none inside another, but not the modal container, the five
    texts are written, so that each slot reads as the page's rendering of
    its text, and only then does the call end in a [TypeError], at the
    assignment of [style.display]. *)
Theorem openModal_writes_before_it_throws (w : World)
    (summary name score time : JSValue) (render : string → string → string) :
  slotsApart w = true →
  present "modal" w = false →
  let w' := exec (ScriptJs.openModal summary name score time) w in
  outcome (ScriptJs.openModal summary name score time) w = Thrown TypeError ∧
  readInnerText render "modal-title" w' =
    Some (render "modal-title" ("Action by " ++ toString name)) ∧
  readInnerText render "modal-details" w' =
    Some (render "modal-details" (toString summary)) ∧
  readInnerText render "modal-user" w' =
    Some (render "modal-user" (toString name)) ∧
  readInnerText render "modal-score" w' =
    Some (render "modal-score" ("+" ++ toString score ++ " pts")) ∧
  readInnerText render "modal-time" w' =
    Some (render "modal-time" ("Time: " ++ toString time)).
Proof.
  intros (p1 & p2 & p3 & p4 & p5 & H1 & H2 & H3 & H4 & H5 & Hap)%slotsApart_paths
         H6 w'.
  unfold present in H6.
  destruct (findFirst (hasId "modal") (body w)) eqn:Hm; [done|]. clear H6.
  unfold w', exec, outcome.
  rewrite (openModal_run_slots_only w p1 p2 p3 p4 p5 H1 H2 H3 H4 H5 Hm Hap).
  cbn [fst snd].
  destruct (slotsFilled_lookups w p1 p2 p3 p4 p5 H1 H2 H3 H4 H5 Hap
              summary name score time) as (L1 & L2 & L3 & L4 & L5).
  destruct (slotsFilled_fields w p1 p2 p3 p4 p5 H1 H2 H3 H4 H5 Hap
              summary name score time) as (F1 & F2 & F3 & F4 & F5).
  unfold readInnerText, innerTextOf. cbn [body] in *.
  rewrite L1, L2, L3, L4, L5. cbn [mbind option_bind].
  by rewrite F1, F2, F3, F4, F5.
Qed.

Lemma openModal_writes_before_it_throws_witness :
  outcome (ScriptJs.openModal (JSString "Did X") (JSString "Alice")
                              (JSString "5") (JSString "2024-01-01"))
          slotsOnlyWorld = Thrown TypeError ∧
  readInnerText (λ _, blockText) "modal-time"
    (exec (ScriptJs.openModal (JSString "Did X") (JSString "Alice")
                              (JSString "5") (JSString "2024-01-01"))
          slotsOnlyWorld) = Some "Time: 2024-01-01".
Proof.
  destruct (openModal_writes_before_it_throws slotsOnlyWorld
              (JSString "Did X") (JSString "Alice") (JSString "5")
              (JSString "2024-01-01") (λ _, blockText) eq_refl eq_refl)
    as (Hthrown & _ & _ & _ & _ & Htime).
  split; [exact Hthrown | exact Htime].
Defined.

(** ** The close handlers, beyond the happy path *)

Lemma windowOnclick_elsewhere w target :
  modalAt w target = false →
  ScriptJs.windowOnclick target w = (w, Normal tt).
Proof.
  unfold modalAt. intros Hne%bool_decide_eq_false.
  unfold ScriptJs.windowOnclick. js_unfold. js_step.
  rewrite bool_decide_eq_false_2; [done | congruence].
Qed.

Lemma handlerOnPath_false h target q :
  handlerOnPath h target = false → q ∈ ancestorsOrSelf target → h ≠ Some q.
Proof.
  unfold handlerOnPath. intros Hh Hq ->.
  by apply bool_decide_eq_false in Hh.
Qed.

(** One element of the bubbling path of a click that reaches no handler's
    element and has no card above it. *)
Lemma clickAt_inert w target q :
  handlerOnPath (closeOnclickOn (listeners w)) target = false →
  handlerOnPath (themeToggleClickOn (listeners w)) target = false →
  noCardAbove w target = true →
  q ∈ ancestorsOrSelf target →
  clickAt scriptJsHandlers target q w = w.
Proof.
  intros Hc Ht Hno Hq. unfold clickAt.
  rewrite (bool_decide_eq_false_2 (closeOnclickOn (listeners w) = Some q))
    by by eapply handlerOnPath_false.
  rewrite (bool_decide_eq_false_2 (themeToggleClickOn (listeners w) = Some q))
    by by eapply handlerOnPath_false.
  destruct (_ && _); [|done].
  cbn [onBodyClick scriptJsHandlers]. unfold runListener.
  by rewrite (bodyClick_ignores _ _ Hno).
Qed.

Lemma bubble_inert w target qs :
  handlerOnPath (closeOnclickOn (listeners w)) target = false →
  handlerOnPath (themeToggleClickOn (listeners w)) target = false →
  noCardAbove w target = true →
  qs ⊆ ancestorsOrSelf target →
  foldl (λ w q, clickAt scriptJsHandlers target q w) w qs = w.
Proof.
  intros Hc Ht Hno. induction qs as [|q qs IH]; intros Hqs; simpl; [done|].
  rewrite clickAt_inert; try done.
  - apply IH. intros q' Hq'. apply Hqs. by right.
  - apply Hqs. by left.
Qed.

(** X4. Events that concern nobody change nothing.  A click whose target
    is not the modal, has no action card above it and lies neither on nor
    inside the close control or the theme switch leaves the whole state as
    it was (so a click inside the dialog's content does not dismiss the
    dialog); so does every key other than Escape. *)
Theorem events_elsewhere_change_nothing (w : World) (target : Path) (key : string) :
  (handlerOnPath (closeOnclickOn (listeners w)) target = false →
   handlerOnPath (themeToggleClickOn (listeners w)) target = false →
   noCardAbove w target = true →
   modalAt w target = false →
   dispatchClick scriptJsHandlers target w = w) ∧
  (key ≠ "Escape" → dispatchKeydown scriptJsHandlers key w = w).
Proof.
  split.
  - intros Hc Ht Hno Hm. unfold dispatchClick.
    rewrite (bubble_inert w target) by done.
    destruct (windowOnclickSet _); [|done].
    cbn [onWindowClick scriptJsHandlers]. unfold runListener.
    by rewrite (windowOnclick_elsewhere _ _ Hm).
  - intros Hkey. unfold dispatchKeydown.
    destruct (keydownListenerSet _); [|done].
    cbn [onKeydown scriptJsHandlers].
    unfold runListener, ScriptJs.keydownListener.
    by rewrite bool_decide_eq_false_2.
Qed.

Lemma events_elsewhere_change_nothing_witness :
  let w := exec (ScriptJs.openModal (JSString "Did X") (JSString "Alice")
                                    (JSString "5") (JSString "2024-01-01"))
             (load ScriptJs.main sampleWorld) in
  dispatchClick scriptJsHandlers [0; 0; 1] w = w ∧
  dispatchKeydown scriptJsHandlers "Enter" w = w.
Proof.
  intros w.
  destruct (events_elsewhere_change_nothing w [0; 0; 1] "Enter") as [Hclick Hkey].
  split; [apply Hclick; reflexivity | apply Hkey; discriminate].
Defined.

(** X5. Without the modal on the page two of the three close triggers
    fail and one does not: the close control's handler and the Escape
    handler end in a [TypeError], having changed nothing, while the
    window's click handler returns normally for every target, its
    comparison with the missing modal being false. *)
Theorem close_triggers_without_modal (w : World) :
  present "modal" w = false →
  ScriptJs.closeOnclick w = (w, Thrown TypeError) ∧
  ScriptJs.keydownListener "Escape" w = (w, Thrown TypeError) ∧
  (∀ target, ScriptJs.windowOnclick target w = (w, Normal tt)).
Proof.
  unfold present. intros Hm.
  destruct (findFirst (hasId "modal") (body w)) eqn:Hnone; [done|].
  split_and!.
  - unfold ScriptJs.closeOnclick. js_unfold. js_step. by rewrite Hnone.
  - unfold ScriptJs.keydownListener. js_unfold.
    rewrite bool_decide_eq_true_2 by done. js_step. by rewrite Hnone.
  - intros target. apply windowOnclick_elsewhere.
    unfold modalAt. by rewrite Hnone, bool_decide_eq_false_2.
Qed.

Lemma close_triggers_without_modal_witness :
  present "modal" modalFreeWorld = false ∧
  ScriptJs.closeOnclick modalFreeWorld = (modalFreeWorld, Thrown TypeError).
Proof.
  split; [reflexivity|].
  apply (close_triggers_without_modal modalFreeWorld). reflexivity.
Defined.

Lemma close_handlers_keep {B} (g : World → B) :
  (∀ v p w, g (withBody (updateAt (withDisplay v) p) w) = g w) →
  preserves (unchanged g) ScriptJs.closeOnclick ∧
  (∀ target, preserves (unchanged g) (ScriptJs.windowOnclick target)) ∧
  (∀ key, preserves (unchanged g) (ScriptJs.keydownListener key)).
Proof.
  intros Hg.
  unfold ScriptJs.closeOnclick, ScriptJs.windowOnclick, ScriptJs.keydownListener.
  js_primitives. split_and!; frame_steps; first [ reflexivity | apply Hg ].
Qed.

(** X6. Closing only hides.  Each of the three close handlers, for every
    click target and every key, leaves untouched the text of every element
    (the modal keeps its content while hidden), the displayed and the
    stored theme, and the log of [openModal] calls. *)
Theorem closing_keeps_content (w : World) (target : Path) (key id : string) :
  let closed :=
    [ exec ScriptJs.closeOnclick w;
      exec (ScriptJs.windowOnclick target) w;
      exec (ScriptJs.keydownListener key) w ] in
  Forall (λ w', innerTextOf id w' = innerTextOf id w ∧
                dataTheme w' = dataTheme w ∧
                storedTheme w' = storedTheme w ∧
                openModalCalls w' = openModalCalls w) closed.
Proof.
  destruct (close_handlers_keep (innerTextOf id)) as (Ht1 & Ht2 & Ht3);
    [by intros; apply innerTextOf_updateAt|].
  destruct (close_handlers_keep dataTheme) as (Hd1 & Hd2 & Hd3);
    [by intros; apply dataTheme_updateAt|].
  destruct (close_handlers_keep storedTheme) as (Hs1 & Hs2 & Hs3); [done|].
  destruct (close_handlers_keep openModalCalls) as (Hc1 & Hc2 & Hc3); [done|].
  repeat constructor;
    first [ apply Ht1 | apply Ht2 | apply Ht3 | apply Hd1 | apply Hd2 | apply Hd3
          | apply Hs1 | apply Hs2 | apply Hs3 | apply Hc1 | apply Hc2 | apply Hc3 ].
Qed.

(** ** The theme switch, beyond the happy path *)

Lemma nodeAt_app n p q :
  nodeAt n (p ++ q)%list = m ← nodeAt n p; nodeAt m q.
Proof.
  revert n. induction p as [|i p IH]; intros n; simpl; [done|].
  destruct (children n !! i); [apply IH | done].
Qed.

(** What [querySelector] finds below an element is an element of the page. *)
Lemma selectBelow_is_Some sel base n p :
  selectBelow sel base n = Some p → is_Some (elemAt n p).
Proof.
  unfold selectBelow. destruct (nodeAt n base) as [m|] eqn:Hm; [|done].
  cbn [mbind option_bind].
  destruct (findFirstBelow sel m) as [rel|] eqn:Hrel; [|done].
  intros [= <-]. unfold findFirstBelow in Hrel.
  apply firstIn_Some in Hrel as (i & k & r & -> & Hk & Hr).
  apply findFirst_is_Some in Hr as [e He].
  exists e. unfold elemAt in *. rewrite nodeAt_app, Hm. simpl. by rewrite Hk.
Qed.

(** X7. A click on a theme switch that has lost its icon flips the
    displayed theme and then ends in a [TypeError] before the preference
    is saved: the storage is left as it was, so the displayed and the
    stored theme part ways. *)
Theorem toggle_without_icon_is_not_saved (w : World) (themeToggle : Path) :
  iconPresent themeToggle w = false →
  let w' := exec (ScriptJs.themeToggleClick themeToggle) w in
  outcome (ScriptJs.themeToggleClick themeToggle) w = Thrown TypeError ∧
  dataTheme w' = Some (ScriptJs.newTheme (dataTheme w)) ∧
  localStorage w' = localStorage w.
Proof.
  intros Hi w'. unfold w', exec, outcome.
  destruct (iconPresent_cases themeToggle w) as [(? & _)|(_ & Hnone)];
    [congruence|].
  rewrite (themeToggleClick_fault _ _ Hnone). cbn [fst snd].
  split_and!; [done | apply dataTheme_setAttribute | done].
Qed.

Lemma toggle_without_icon_is_not_saved_witness :
  iconPresent [1] iconlessWorld = false ∧
  dataTheme (exec (ScriptJs.themeToggleClick [1]) iconlessWorld) = Some "dark" ∧
  storedTheme (exec (ScriptJs.themeToggleClick [1]) iconlessWorld) = None.
Proof.
  destruct (toggle_without_icon_is_not_saved iconlessWorld [1])
    as (_ & Hd & Hs); [reflexivity|].
  split; [reflexivity|]. split; [exact Hd|].
  unfold storedTheme. rewrite Hs. reflexivity.
Defined.

(** X8. The toggle compares with [dark] only.  From a displayed theme of
    [dark] a run of the handler displays [light]; from every other state,
    [light], a missing attribute or any other text, it displays [dark].
    This holds whether or not the run completes. *)
Theorem toggle_goes_dark_unless_dark (w : World) (themeToggle : Path) :
  dataTheme (exec (ScriptJs.themeToggleClick themeToggle) w) =
    Some (if bool_decide (dataTheme w = Some "dark") then "light" else "dark").
Proof. apply themeToggleClick_dataTheme. Qed.

(** X9. The icon follows the theme.  After theme setup and after every
    completed toggle, the icon inside the switch carries the classes
    [fa-solid fa-sun] when the displayed theme is [dark] and
    [fa-solid fa-moon] otherwise, whatever classes it had before. *)
Theorem icon_follows_theme (w : World) (themeToggle icon : Path) :
  selectBelow (hasTag "i") themeToggle (body w) = Some icon →
  let shown w' :=
    theme ← dataTheme w';
    Some (if bool_decide (theme = "dark")
          then ["fa-solid"; "fa-sun"] else ["fa-solid"; "fa-moon"]) in
  (findFirst (hasId "themeToggle") (body w) = Some themeToggle →
   classList <$> elemAt (body (exec ScriptJs.themeSetup w)) icon =
     shown (exec ScriptJs.themeSetup w)) ∧
  classList <$> elemAt (body (exec (ScriptJs.themeToggleClick themeToggle) w)) icon =
    shown (exec (ScriptJs.themeToggleClick themeToggle) w).
Proof.
  intros Hi shown. pose proof (selectBelow_is_Some _ _ _ _ Hi) as Hsome.
  assert (∀ v c,
    classList <$> elemAt (updateAt (withClassList c) icon
      (updateAt (withAttribute "data-theme" v) documentBody (body w))) icon
    = Some c) as Hclass.
  { intros v c. rewrite elemAt_updateAt_eq.
    destruct (elemAt_updateAt_is_Some (withAttribute "data-theme" v)
                documentBody _ _ Hsome) as [e ->]. done. }
  split.
  - intros Ht. unfold shown. rewrite (themeSetup_dataTheme _ _ Ht).
    unfold exec. rewrite (themeSetup_run _ _ _ Ht Hi). cbn [fst body].
    by rewrite Hclass.
  - unfold shown. rewrite themeToggleClick_dataTheme.
    unfold exec. rewrite (themeToggleClick_run _ _ _ Hi). cbn [fst body].
    by rewrite Hclass.
Qed.

Lemma icon_follows_theme_witness :
  classList <$> elemAt
    (body (exec (ScriptJs.themeToggleClick [1]) sampleWorld)) [1; 0]
  = Some ["fa-solid"; "fa-sun"].
Proof.
  destruct (icon_follows_theme sampleWorld [1] [1; 0]) as [_ Hclick];
    [reflexivity|].
  exact Hclick.
Defined.

(** X10. Theme setup reads the preference and never writes it: it leaves
    [localStorage] as it found it on every page, so a theme that came from
    the system signal is not persisted until the first toggle.  It also
    leaves every text and every [display] alone. *)
Theorem themeSetup_does_not_save (w : World) (id : string) :
  localStorage (exec ScriptJs.themeSetup w) = localStorage w ∧
  innerTextOf id (exec ScriptJs.themeSetup w) = innerTextOf id w ∧
  displayOf id (exec ScriptJs.themeSetup w) = displayOf id w.
Proof.
  assert (preserves (unchanged localStorage) ScriptJs.themeSetup) as Hs.
  { unfold ScriptJs.themeSetup, addThemeToggleClick. js_primitives.
    frame_steps; reflexivity. }
  assert (preserves (unchanged (innerTextOf id)) ScriptJs.themeSetup) as Ht.
  { unfold ScriptJs.themeSetup, addThemeToggleClick. js_primitives.
    frame_steps; first [ reflexivity | by apply innerTextOf_updateAt ]. }
  assert (preserves (unchanged (displayOf id)) ScriptJs.themeSetup) as Hd.
  { unfold ScriptJs.themeSetup, addThemeToggleClick. js_primitives.
    frame_steps; first [ reflexivity | by apply displayOf_updateAt ]. }
  split_and!; [apply Hs | apply Ht | apply Hd].
Qed.

(** X11. A toggled theme survives a reload.  After a completed toggle,
    theme setup on any page that has the switch and the same
    [localStorage], whatever its system signal, displays the theme that
    the toggle displayed. *)
Theorem toggled_theme_survives_reload (w reloaded : World) (themeToggle : Path) :
  iconPresent themeToggle w = true →
  present "themeToggle" reloaded = true →
  localStorage reloaded = localStorage (exec (ScriptJs.themeToggleClick themeToggle) w) →
  dataTheme (exec ScriptJs.themeSetup reloaded) =
    dataTheme (exec (ScriptJs.themeToggleClick themeToggle) w).
Proof.
  intros Hi (t & Ht)%present_true Hstore.
  destruct (themeToggleClick_storedTheme w themeToggle Hi) as [_ Hs].
  rewrite (themeSetup_dataTheme _ _ Ht), themeToggleClick_dataTheme.
  unfold storedTheme in *. rewrite Hstore, Hs.
  unfold ScriptJs.currentTheme, jsOr.
  destruct (newTheme_cases (dataTheme w)) as [-> | ->]; done.
Qed.

Lemma toggled_theme_survives_reload_witness :
  dataTheme
    (exec ScriptJs.themeSetup
       (mkWorld sampleBody [] {["theme" := "dark"]} false noListeners [] []))
  = Some "dark".
Proof.
  apply (toggled_theme_survives_reload sampleWorld
           (mkWorld sampleBody [] {["theme" := "dark"]} false noListeners [] [])
           [1]); reflexivity.
Defined.

(** ** The click delegate, end to end *)

(** X12. A click inside an action card shows the card in the modal.  On a
    well-formed page, the delegate, run for a click whose nearest card is
    [card], completes; afterwards the modal is shown and its five slots
    hold the texts built from that card's [data-summary], [data-user],
    [data-score] and [data-time], read back as the page renders them. *)
Theorem bodyClick_shows_the_card (w : World) (card rest : Path)
    (render : string → string → string) :
  modalWellFormed w = true →
  onPage w (card ++ rest) = true →
  cardAt w card = true →
  nearestCard w card rest = true →
  let w' := exec (ScriptJs.bodyClick (card ++ rest)) w in
  outcome (ScriptJs.bodyClick (card ++ rest)) w = Normal tt ∧
  readInnerText render "modal-title" w' =
    Some (render "modal-title"
            ("Action by " ++ toString (datasetAt w card "user"))) ∧
  readInnerText render "modal-details" w' =
    Some (render "modal-details" (toString (datasetAt w card "summary"))) ∧
  readInnerText render "modal-user" w' =
    Some (render "modal-user" (toString (datasetAt w card "user"))) ∧
  readInnerText render "modal-score" w' =
    Some (render "modal-score"
            ("+" ++ toString (datasetAt w card "score") ++ " pts")) ∧
  readInnerText render "modal-time" w' =
    Some (render "modal-time"
            ("Time: " ++ toString (datasetAt w card "time"))) ∧
  displayOf "modal" w' = Some "block".
Proof.
  intros Hwf Hon Hcard Hnear w'. unfold w', exec, outcome.
  rewrite (bodyClick_nearest _ _ _ Hon Hcard Hnear).
  destruct (openModal_effect w (datasetAt w card "summary")
              (datasetAt w card "user") (datasetAt w card "score")
              (datasetAt w card "time") Hwf)
    as (Hout & _ & Ht & Hd & Hu & Hs & Hti & Hdisp).
  unfold exec, outcome in Hout, Ht, Hd, Hu, Hs, Hti, Hdisp.
  unfold readInnerText. by rewrite Ht, Hd, Hu, Hs, Hti.
Qed.

Lemma bodyClick_shows_the_card_witness :
  readInnerText (λ _, blockText) "modal-title"
    (exec (ScriptJs.bodyClick [2; 0; 0]) sampleWorld)
  = Some "Action by Alice".
Proof.
  destruct (bodyClick_shows_the_card sampleWorld [2] [0; 0] (λ _, blockText)
              eq_refl eq_refl eq_refl eq_refl) as (_ & Htitle & _).
  exact Htitle.
Defined.

(** X13. A card that lacks a data attribute is shown all the same, with
    the text [undefined] in its place: on a well-formed page, without
    [data-score] the call completes and the score slot holds
    "+undefined pts", read back as the page renders it. *)
Theorem bodyClick_missing_score_reads_undefined (w : World) (card rest : Path)
    (render : string → string → string) :
  modalWellFormed w = true →
  onPage w (card ++ rest) = true →
  cardAt w card = true →
  nearestCard w card rest = true →
  datasetAt w card "score" = JSUndefined →
  outcome (ScriptJs.bodyClick (card ++ rest)) w = Normal tt ∧
  readInnerText render "modal-score"
    (exec (ScriptJs.bodyClick (card ++ rest)) w)
    = Some (render "modal-score" "+undefined pts").
Proof.
  intros Hwf Hon Hcard Hnear Hscore. unfold exec, outcome.
  rewrite (bodyClick_nearest _ _ _ Hon Hcard Hnear), Hscore.
  destruct (openModal_effect w (datasetAt w card "summary")
              (datasetAt w card "user") JSUndefined
              (datasetAt w card "time") Hwf)
    as (Hout & _ & _ & _ & _ & Hs & _).
  unfold exec, outcome in Hout, Hs.
  unfold readInnerText. by rewrite Hs.
Qed.

Lemma bodyClick_missing_score_reads_undefined_witness :
  datasetAt scorelessCardWorld [1] "score" = JSUndefined ∧
  readInnerText (λ _, blockText) "modal-score"
    (exec (ScriptJs.bodyClick [1; 0]) scorelessCardWorld)
    = Some "+undefined pts".
Proof.
  split; [reflexivity|].
  apply (bodyClick_missing_score_reads_undefined scorelessCardWorld [1] [0]
           (λ _, blockText) eq_refl eq_refl eq_refl eq_refl eq_refl).
Defined.

(** One element of the bubbling path of a click with no card above its
    target: still no card above it, and no call of [openModal]. *)
Lemma clickAt_no_card w target q :
  noCardAbove w target = true →
  noCardAbove (clickAt scriptJsHandlers target q w) target = true ∧
  openModalCalls (clickAt scriptJsHandlers target q w) = openModalCalls w.
Proof.
  intros Hno. unfold clickAt. cbn [onCloseClick onThemeToggleClick onBodyClick
    scriptJsHandlers].
  destruct (close_handlers_keep openModalCalls) as (Hclose & _ & _); [done|].
  set (w1 := if bool_decide (closeOnclickOn (listeners w) = Some q)
             then runListener ScriptJs.closeOnclick w else w).
  assert (noCardAbove w1 target = true ∧ openModalCalls w1 = openModalCalls w)
    as [Hno1 Hc1].
  { unfold w1. case_bool_decide; [|done]. split.
    - apply (runListener_rel (stillNoCard target));
        [by intros f w0 H0 | apply closeOnclick_stillNoCard | done].
    - by apply (runListener_keeps openModalCalls). }
  clearbody w1.
  set (w2 := if bool_decide (themeToggleClickOn (listeners w1) = Some q)
             then runListener (ScriptJs.themeToggleClick q) w1 else w1).
  assert (noCardAbove w2 target = true ∧ openModalCalls w2 = openModalCalls w1)
    as [Hno2 Hc2].
  { unfold w2. case_bool_decide; [|done]. split.
    - apply (runListener_rel (stillNoCard target));
        [by intros f w0 H0 | apply themeToggleClick_stillNoCard | done].
    - apply (runListener_keeps openModalCalls); [done|].
      unfold ScriptJs.themeToggleClick. js_primitives.
      frame_steps; reflexivity. }
  clearbody w2.
  assert ((if bool_decide (q = documentBody) && bodyClickSet (listeners w2)
           then runListener (ScriptJs.bodyClick target) w2 else w2) = w2) as ->.
  { destruct (_ && _); [|done].
    unfold runListener. by rewrite (bodyClick_ignores _ _ Hno2). }
  split; [done | congruence].
Qed.

(** X14. A click outside every card never opens the modal, whatever else
    it does.  For a target with no action card among its ancestors, itself
    included, the whole dispatch of the click, through the close control,
    the theme switch, the body and the window, makes no call of
    [openModal]. *)
Theorem click_outside_cards_never_opens (w : World) (target : Path) :
  noCardAbove w target = true →
  openModalCalls (dispatchClick scriptJsHandlers target w) = openModalCalls w.
Proof.
  intros Hno. unfold dispatchClick.
  assert (∀ qs w0, noCardAbove w0 target = true →
    openModalCalls (foldl (λ w q, clickAt scriptJsHandlers target q w) w0 qs)
    = openModalCalls w0) as Hfold.
  { induction qs as [|q qs IH]; intros w0 Hno0; simpl; [done|].
    destruct (clickAt_no_card w0 target q Hno0) as [Hno' Hc'].
    by rewrite IH. }
  destruct (windowOnclickSet _); [|by apply Hfold].
  cbn [onWindowClick scriptJsHandlers].
  destruct (close_handlers_keep openModalCalls) as (_ & Hwin & _); [done|].
  rewrite (runListener_keeps openModalCalls) by done.
  by apply Hfold.
Qed.

Lemma click_outside_cards_never_opens_witness :
  openModalCalls
    (dispatchClick scriptJsHandlers [1; 0] (load ScriptJs.main sampleWorld)) = [].
Proof.
  apply (click_outside_cards_never_opens (load ScriptJs.main sampleWorld) [1; 0]).
  reflexivity.
Defined.

(** ** Page loads and events, witnessed *)

Lemma load_without_close_witness :
  listeners (load ScriptJs.main modalFreeWorld) = noListeners ∧
  dataTheme (load ScriptJs.main modalFreeWorld) = None.
Proof.
  destruct (load_without_close modalFreeWorld eq_refl) as (Hl & Hb & _).
  split; [exact Hl|]. unfold dataTheme. rewrite Hb. reflexivity.
Defined.

Lemma load_without_icon_witness :
  bodyClickSet (listeners (load ScriptJs.main iconlessWorld)) = false ∧
  headStyles (load ScriptJs.main iconlessWorld) = [].
Proof.
  destruct (load_without_icon iconlessWorld [0; 0; 0] [1] eq_refl eq_refl eq_refl)
    as (Hl & Hs & _).
  split; [by rewrite Hl | exact Hs].
Defined.

Lemma load_complete_witness :
  listeners (load ScriptJs.main sampleWorld) =
    mkListeners (Some [0; 0; 0]) true true (Some [1]) true.
Proof.
  destruct (load_complete sampleWorld [0; 0; 0] [1] [1; 0] eq_refl eq_refl eq_refl)
    as (Hl & _). exact Hl.
Defined.

(** X18. The theme switch is optional for everything else.  On a page with
    the close control but without the switch the top level of script.js
    runs to its end without touching the body: the close handlers and the
    click delegate are installed, the style sheet is appended, no toggle
    listener exists and nothing is reported. *)
Theorem load_without_toggle (w : World) (close : Path) :
  findFirst (hasClass "close") (body w) = Some close →
  present "themeToggle" w = false →
  listeners (load ScriptJs.main w) = mkListeners (Some close) true true None true ∧
  body (load ScriptJs.main w) = body w ∧
  headStyles (load ScriptJs.main w) = (headStyles w ++ [ScriptJs.style])%list ∧
  consoleErrors (load ScriptJs.main w) = consoleErrors w.
Proof.
  intros Hc Ht. unfold present in Ht.
  destruct (findFirst (hasId "themeToggle") (body w)) eqn:Hnone; [done|].
  run_main. rewrite Hc. js_step.
  by rewrite themeSetup_absent.
Qed.

Lemma load_without_toggle_witness :
  listeners (load ScriptJs.main toggleFreeWorld) =
    mkListeners (Some [0; 0; 0]) true true None true.
Proof.
  destruct (load_without_toggle toggleFreeWorld [0; 0; 0] eq_refl eq_refl)
    as (Hl & _). exact Hl.
Defined.

Lemma dispatch_Escape_hides_witness :
  displayOf "modal"
    (dispatchKeydown scriptJsHandlers "Escape"
       (exec (ScriptJs.openModal (JSString "Did X") (JSString "Alice")
                                 (JSString "5") (JSString "2024-01-01"))
             (load ScriptJs.main sampleWorld))) = Some "none".
Proof.
  apply (dispatch_Escape_hides _ [0]); reflexivity.
Defined.

Lemma dispatch_backdrop_hides_witness :
  displayOf "modal"
    (dispatchClick scriptJsHandlers [0]
       (exec (ScriptJs.openModal (JSString "Did X") (JSString "Alice")
                                 (JSString "5") (JSString "2024-01-01"))
             (load ScriptJs.main sampleWorld))) = Some "none".
Proof.
  apply (dispatch_backdrop_hides _ [0]); reflexivity.
Defined.

Lemma dispatch_close_click_hides_witness :
  displayOf "modal"
    (dispatchClick scriptJsHandlers [0; 0; 0]
       (exec (ScriptJs.openModal (JSString "Did X") (JSString "Alice")
                                 (JSString "5") (JSString "2024-01-01"))
             (load ScriptJs.main sampleWorld))) = Some "none".
Proof.
  apply (dispatch_close_click_hides _ [0; 0; 0] [0]); reflexivity.
Defined.

(** ** The shorter copy *)

(** Whatever the handlers of [H] leave alone, the dispatch of a click or
    of a key leaves alone. *)
Lemma dispatch_kept {B} (H : Handlers) (g : World → B) target key w :
  keptByHandlers H g →
  g (dispatchClick H target w) = g w ∧ g (dispatchKeydown H key w) = g w.
Proof.
  intros Hkept. pose proof Hkept as (Hc & _ & Hwin & Hkey & _ & _).
  unfold dispatchClick, dispatchKeydown. split.
  - destruct (windowOnclickSet _).
    + rewrite (runListener_keeps g) by done. by apply bubble_kept.
    + by apply bubble_kept.
  - destruct (keydownListenerSet _); [|done].
    by rewrite (runListener_keeps g).
Qed.

(** X21. The shorter copy never opens the modal by itself: it defines
    [openModal] but neither its top level nor any of its handlers calls
    it.  On any page and in any state, the dispatch of a click, the
    dispatch of a key and a page load from that copy each leave the log of
    [openModal] calls as it was. *)
Theorem part000_events_never_open (w : World) (target : Path) (key : string) :
  openModalCalls (dispatchClick part000Handlers target w) = openModalCalls w ∧
  openModalCalls (dispatchKeydown part000Handlers key w) = openModalCalls w ∧
  openModalCalls (load Part000.main w) = openModalCalls w.
Proof.
  assert (keptByHandlers part000Handlers openModalCalls) as Hkept.
  { unfold keptByHandlers, part000Handlers, onCloseClick, onWindowClick,
      onKeydown, onThemeToggleClick, onBodyClick, Part000.closeOnclick,
      Part000.windowOnclick, Part000.keydownListener, Part000.themeToggleClick.
    js_primitives. split_and!; [done | ..]; frame_steps; reflexivity. }
  destruct (dispatch_kept part000Handlers openModalCalls target key w Hkept)
    as [Hclick Hkey].
  split_and!; [done | done |].
  unfold load. rewrite (runListener_keeps openModalCalls); [done | done |].
  unfold Part000.main, Part000.themeSetup, setCloseOnclick, setWindowOnclick,
    addKeydownListener, addThemeToggleClick.
  js_primitives. frame_steps; reflexivity.
Qed.
